(** * transfermarkt-api: the squad scraper of [src/tm.js]

    A shallow embedding of [getClubSquad] and of the parts of the
    JavaScript runtime and of cheerio it relies on:

    - JavaScript strings, as sequences of UTF-16 code units;
    - [String.prototype.trim], [split], [replace], [match] with a small
      backtracking regular-expression engine (greedy quantifiers, ordered
      alternation, capture groups, leftmost match);
    - Numbers, as IEEE 754 binary64 values (the Standard Library's
      [spec_float] with [prec = 53], [emax = 1024]) and [parseFloat];
    - the DOM tree cheerio produces and the selector queries [find], [eq],
      [text], [attr] the scraper performs on it;
    - exceptions and [try]/[catch], as a result type, and [console.error]
      as an explicit log. *)

From Stdlib Require Import Ascii String.
From Stdlib Require Import List NArith ZArith Bool Lia.
From Stdlib Require Import SpecFloat.
Import ListNotations.

Set Implicit Arguments.

(* ================================================================== *)
(** * JavaScript strings *)
(* ================================================================== *)

Module JsString.

(** A string is a sequence of UTF-16 code units. *)
Definition char16 := N.
Definition jsstring := list char16.

(** An ASCII literal, code unit by code unit. *)
Definition lit (s : string) : jsstring :=
  map N_of_ascii (list_ascii_of_string s).

(** The non-ASCII characters the scraper names. *)
Definition euro : char16 := 8364%N.   (* U+20AC *)
Definition pound : char16 := 163%N.   (* U+00A3 *)

Fixpoint str_eqb (a b : jsstring) : bool :=
  match a, b with
  | [], [] => true
  | x :: a', y :: b' => N.eqb x y && str_eqb a' b'
  | _, _ => false
  end.

(** WhiteSpace and LineTerminator code units: what [trim] strips and what
    [\s] matches. *)
Definition is_space (c : char16) : bool :=
  ((9 <=? c) && (c <=? 13) || (c =? 32) || (c =? 160) || (c =? 5760)
   || (8192 <=? c) && (c <=? 8202) || (c =? 8232) || (c =? 8233)
   || (c =? 8239) || (c =? 8287) || (c =? 12288) || (c =? 65279))%N.

(** [\d] *)
Definition is_digit (c : char16) : bool := ((48 <=? c) && (c <=? 57))%N.

Fixpoint trim_start (s : jsstring) : jsstring :=
  match s with
  | c :: s' => if is_space c then trim_start s' else s
  | [] => []
  end.

Definition trim_end (s : jsstring) : jsstring := rev (trim_start (rev s)).

(** [s.trim()] *)
Definition trim (s : jsstring) : jsstring := trim_end (trim_start s).

Fixpoint is_prefix (p s : jsstring) : bool :=
  match p, s with
  | [], _ => true
  | x :: p', y :: s' => N.eqb x y && is_prefix p' s'
  | _ :: _, [] => false
  end.

(** [s.split(sep)] for a non-empty separator: [skip] counts the code units
    of a separator just found that are still to be passed over, [cur] is
    the current piece, reversed. *)
Fixpoint split_go (sep : jsstring) (skip : nat) (cur s : jsstring)
  : list jsstring :=
  match s with
  | [] => [rev cur]
  | c :: s' =>
      match skip with
      | S k => split_go sep k cur s'
      | O =>
          if is_prefix sep s
          then rev cur :: split_go sep (length sep - 1) [] s'
          else split_go sep 0 (c :: cur) s'
      end
  end.

Definition split (sep s : jsstring) : list jsstring := split_go sep 0 [] s.

(** [s.replace(/c/g, '')] for a one-character pattern. *)
Definition remove_all (c : char16) (s : jsstring) : jsstring :=
  filter (fun x => negb (N.eqb x c)) s.

(** [s.replace(c, d)] for one-character strings: the first occurrence
    only. *)
Fixpoint replace_first (c d : char16) (s : jsstring) : jsstring :=
  match s with
  | [] => []
  | x :: s' => if N.eqb x c then d :: s' else x :: replace_first c d s'
  end.

(** [s || d]: the empty string is falsy. *)
Definition or_else (s d : jsstring) : jsstring :=
  match s with [] => d | _ => s end.

(** [v || d] where [v] may be [undefined]. *)
Definition opt_or_else (v : option jsstring) (d : jsstring) : jsstring :=
  match v with Some s => or_else s d | None => d end.

End JsString.
Import JsString.

(* ================================================================== *)
(** * Regular expressions *)
(* ================================================================== *)

Module Regex.

(** The fragment of the RegExp syntax the scraper's five patterns use.
    [Group i r] is the i-th capturing group; non-capturing groups are
    plain nesting. *)
Inductive regex : Type :=
| Eps                                  (* empty *)
| Bol                                  (* ^ *)
| Eol                                  (* $ *)
| Chr (c : char16)                     (* a literal character *)
| Digit                                (* \d *)
| Space                                (* \s *)
| OneOf (cs : list char16)             (* [...] *)
| Seq (r1 r2 : regex)
| Alt (r1 r2 : regex)                  (* r1|r2, r1 tried first *)
| Star (r : regex)                     (* r*, greedy *)
| Group (i : nat) (r : regex).

(** r? and r+, greedy. *)
Definition Opt (r : regex) : regex := Alt r Eps.
Definition Plus (r : regex) : regex := Seq r (Star r).

Fixpoint Lit (s : jsstring) : regex :=
  match s with
  | [] => Eps
  | [c] => Chr c
  | c :: s' => Seq (Chr c) (Lit s')
  end.

Fixpoint Seqs (rs : list regex) : regex :=
  match rs with
  | [] => Eps
  | [r] => r
  | r :: rs' => Seq r (Seqs rs')
  end.

(** Captures: the most recent binding of a group comes first. *)
Definition captures := list (nat * jsstring).

Fixpoint capture (i : nat) (cs : captures) : option jsstring :=
  match cs with
  | [] => None
  | (j, s) :: cs' => if Nat.eqb i j then Some s else capture i cs'
  end.

Definition accepts_char (r : regex) (c : char16) : bool :=
  match r with
  | Chr d => N.eqb c d
  | Digit => is_digit c
  | Space => is_space c
  | OneOf cs => existsb (N.eqb c) cs
  | _ => false
  end.

Section Matcher.
Variable A : Type.
(** The string [match] was called on: [Bol] needs to know where it
    starts. *)
Variable whole : jsstring.

(** Backtracking matcher in continuation-passing style: [rmatch r s cs k]
    matches [r] at the front of [s] and hands what is left to [k]; when
    [k] fails the next alternative is tried.  An iteration of [Star]
    that consumes nothing is refused, as in ECMAScript. *)
Fixpoint rmatch (r : regex) (s : jsstring) (cs : captures)
         (k : jsstring -> captures -> option A) {struct r} : option A :=
  match r with
  | Eps => k s cs
  | Bol => if Nat.eqb (length s) (length whole) then k s cs else None
  | Eol => match s with [] => k s cs | _ => None end
  | Chr _ | Digit | Space | OneOf _ =>
      match s with
      | c :: s' => if accepts_char r c then k s' cs else None
      | [] => None
      end
  | Seq r1 r2 => rmatch r1 s cs (fun s' cs' => rmatch r2 s' cs' k)
  | Alt r1 r2 =>
      match rmatch r1 s cs k with
      | Some x => Some x
      | None => rmatch r2 s cs k
      end
  | Star r1 =>
      (fix loop (fuel : nat) (s : jsstring) (cs : captures) : option A :=
         match fuel with
         | O => k s cs
         | S fuel' =>
             match rmatch r1 s cs
                     (fun s' cs' =>
                        if Nat.ltb (length s') (length s)
                        then loop fuel' s' cs' else None) with
             | Some x => Some x
             | None => k s cs
             end
         end) (length s) s cs
  | Group i r1 =>
      rmatch r1 s cs
        (fun s' cs' =>
           k s' ((i, firstn (length s - length s') s) :: cs'))
  end.
End Matcher.

(** The match at one start position: group 0 is the whole match. *)
Definition match_here (r : regex) (whole s : jsstring) : option captures :=
  rmatch whole r s []
    (fun s' cs => Some ((0, firstn (length s - length s') s) :: cs)).

(** The leftmost match: start positions are tried from left to right. *)
Fixpoint search (r : regex) (whole s : jsstring) : option captures :=
  match match_here r whole s with
  | Some m => Some m
  | None =>
      match s with
      | [] => None
      | _ :: s' => search r whole s'
      end
  end.

(** [s.match(r)] for a pattern without the [g] flag: [None] is [null]. *)
Definition str_match (r : regex) (s : jsstring) : option captures :=
  search r s s.

(** [m[i]] for a group that takes part in every match of its pattern. *)
Definition group (i : nat) (m : captures) : jsstring :=
  match capture i m with Some s => s | None => [] end.

End Regex.
Import Regex.

(* ================================================================== *)
(** * Numbers *)
(* ================================================================== *)

Module JsNumber.

(** A Number is an IEEE 754 binary64 value. *)
Definition number := spec_float.
Definition prec : Z := 53.
Definition emax : Z := 1024.

Definition NaN : number := S754_nan.

(** The Number an integer literal denotes. *)
Definition of_Z (z : Z) : number := binary_normalize prec emax z 0 false.

(** [x * y] *)
Definition mul (x y : number) : number := SFmul prec emax x y.

(** The Number value of the decimal [n * 10^k], rounded to nearest, ties
    to even. *)
Definition of_decimal (neg : bool) (n : N) (k : Z) : number :=
  match n with
  | N0 => S754_zero neg
  | Npos p =>
      if (0 <=? k)%Z
      then binary_round prec emax neg (p * Z.to_pos (10 ^ k)) 0
      else SFdiv prec emax (S754_finite neg p 0)
                           (S754_finite false (Z.to_pos (10 ^ (- k))) 0)
  end.

Fixpoint span_digits (s : jsstring) : jsstring * jsstring :=
  match s with
  | c :: s' =>
      if is_digit c
      then let (ds, r) := span_digits s' in (c :: ds, r)
      else ([], s)
  | [] => ([], [])
  end.

Definition digits_value (ds : jsstring) : N :=
  fold_left (fun acc c => acc * 10 + (c - 48))%N ds 0%N.

Definition exponent_digits (neg : bool) (s : jsstring) : Z :=
  match fst (span_digits s) with
  | [] => 0%Z
  | ds => if neg then (- Z.of_N (digits_value ds))%Z
          else Z.of_N (digits_value ds)
  end.

(** ExponentPart, when one follows; 0 otherwise. *)
Definition exponent_part (s : jsstring) : Z :=
  match s with
  | c :: s1 =>
      if ((c =? 101) || (c =? 69))%N then          (* e E *)
        match s1 with
        | sg :: s2 =>
            if (sg =? 43)%N then exponent_digits false s2        (* + *)
            else if (sg =? 45)%N then exponent_digits true s2    (* - *)
            else exponent_digits false s1
        | [] => 0%Z
        end
      else 0%Z
  | [] => 0%Z
  end.

(** The longest prefix that is a StrUnsignedDecimalLiteral. *)
Definition unsigned_decimal (neg : bool) (s : jsstring) : number :=
  if is_prefix (lit "Infinity") s then S754_infinity neg else
  let (ip, r1) := span_digits s in
  match r1 with
  | c :: r2 =>
      if (c =? 46)%N then                                        (* . *)
        let (fp, r3) := span_digits r2 in
        match ip, fp with
        | [], [] => NaN
        | _, _ => of_decimal neg (digits_value (ip ++ fp))
                    (exponent_part r3 - Z.of_nat (length fp))
        end
      else
        match ip with
        | [] => NaN
        | _ => of_decimal neg (digits_value ip) (exponent_part r1)
        end
  | [] =>
      match ip with
      | [] => NaN
      | _ => of_decimal neg (digits_value ip) 0
      end
  end.

(** [parseFloat(s)] *)
Definition parseFloat (s : jsstring) : number :=
  match trim_start s with
  | c :: r =>
      if (c =? 43)%N then unsigned_decimal false r
      else if (c =? 45)%N then unsigned_decimal true r
      else unsigned_decimal false (c :: r)
  | [] => NaN
  end.

(** Reading a Number back: the integer it is, if it is one. *)
Definition to_Z (x : number) : option Z :=
  match x with
  | S754_zero _ => Some 0%Z
  | S754_finite s m e =>
      let v := if (0 <=? e)%Z then Some (Z.pos m * 2 ^ e)%Z
               else if (Z.pos m mod 2 ^ (- e) =? 0)%Z
                    then Some (Z.pos m / 2 ^ (- e))%Z else None in
      if s then option_map Z.opp v else v
  | _ => None
  end.

Definition is_finite (x : number) : bool :=
  match x with
  | S754_zero _ | S754_finite _ _ _ => true
  | _ => false
  end.

(** Neither NaN nor below zero; [-0] counts as negative here. *)
Definition is_nonneg (x : number) : bool :=
  match x with
  | S754_zero s | S754_finite s _ _ | S754_infinity s => negb s
  | S754_nan => false
  end.

End JsNumber.
Import JsNumber.

(* ================================================================== *)
(** * Exceptions and the console *)
(* ================================================================== *)

Module Js.

(** What a [throw] carries. *)
Inductive error : Type :=
| TypeError (msg : jsstring)           (* raised by the runtime *)
| HostError (msg : jsstring).          (* raised by axios or cheerio *)

(** A computation that returns or throws. *)
Inductive result (A : Type) : Type :=
| Ok (v : A)
| Throw (e : error).
Arguments Ok {A} v.
Arguments Throw {A} e.

Definition rbind {A B} (c : result A) (f : A -> result B) : result B :=
  match c with
  | Ok v => f v
  | Throw e => Throw e
  end.

(** What [console.error] has printed so far. *)
Definition console := list error.

(** An effectful computation: it reads and extends the console and returns
    or throws. *)
Definition M (A : Type) : Type := console -> result A * console.

Definition ret {A} (v : A) : M A := fun c => (Ok v, c).

Definition bind {A B} (m : M A) (f : A -> M B) : M B :=
  fun c =>
    match m c with
    | (Ok v, c') => f v c'
    | (Throw e, c') => (Throw e, c')
    end.

Definition lift {A} (r : result A) : M A := fun c => (r, c).

(** [try { body } catch (error) { handler }] *)
Definition try_catch {A} (body : M A) (handler : error -> M A) : M A :=
  fun c =>
    match body c with
    | (Ok v, c') => (Ok v, c')
    | (Throw e, c') => handler e c'
    end.

(** [console.error(..., e)] *)
Definition console_error (e : error) : M unit :=
  fun c => (Ok tt, c ++ [e]).

End Js.
Import Js.

Declare Scope js_scope.
Delimit Scope js_scope with js.
Notation "x <- c1 ;; c2" := (bind c1 (fun x => c2))
  (at level 61, c1 at next level, right associativity) : js_scope.
Notation "c1 ;; c2" := (bind c1 (fun _ => c2))
  (at level 61, right associativity) : js_scope.
Notation "'let?' x := c1 'in' c2" := (rbind c1 (fun x => c2))
  (at level 61, x name, c1 at next level, right associativity).

(* ================================================================== *)
(** * The DOM tree and cheerio's queries *)
(* ================================================================== *)

Module Cheerio.

Local Unset Elimination Schemes.

(** A node of the parsed page: a text node or an element with its
    attributes and children.  Comments and directives answer no query the
    scraper makes and are left out. *)
Inductive node : Type :=
| Text (data : jsstring)
| Element (name : jsstring) (attribs : list (jsstring * jsstring))
          (children : list node).

(** What a selector looks at in an element. *)
Definition tag : Type := (jsstring * list (jsstring * jsstring))%type.

Fixpoint get_attr (a : jsstring) (attribs : list (jsstring * jsstring))
  : option jsstring :=
  match attribs with
  | [] => None
  | (n, v) :: rest => if str_eqb n a then Some v else get_attr a rest
  end.

(** The words of a [class] attribute. *)
Fixpoint words_go (cur s : jsstring) : list jsstring :=
  match s with
  | [] => match cur with [] => [] | _ => [rev cur] end
  | c :: s' =>
      if is_space c
      then match cur with
           | [] => words_go [] s'
           | _ => rev cur :: words_go [] s'
           end
      else words_go (c :: cur) s'
  end.

Definition class_list (t : tag) : list jsstring :=
  match get_attr (lit "class") (snd t) with
  | Some v => words_go [] v
  | None => []
  end.

Definition has_class (c : jsstring) (t : tag) : bool :=
  existsb (str_eqb c) (class_list t).

(** A compound selector: [td], [.rechts], [tr.odd], [td[rowspan="2"]]. *)
Record compound : Type := {
  sel_name : option jsstring;
  sel_classes : list jsstring;
  sel_attrs : list (jsstring * jsstring)
}.

(** Compound selectors joined by the descendant combinator, outermost
    first. *)
Definition complex := list compound.

(** Complex selectors joined by commas. *)
Definition selector := list complex.

Definition matches_compound (c : compound) (t : tag) : bool :=
  match sel_name c with
  | Some n => str_eqb n (fst t)
  | None => true
  end
  && forallb (fun cl => has_class cl t) (sel_classes c)
  && forallb (fun av => match get_attr (fst av) (snd t) with
                        | Some v => str_eqb v (snd av)
                        | None => false
                        end) (sel_attrs c).

(** [chain], innermost first, is matched by ancestors, nearest first. *)
Fixpoint ancestors_match (chain : list compound) (ancestors : list tag)
  : bool :=
  match chain with
  | [] => true
  | c :: chain' =>
      (fix go (ancs : list tag) : bool :=
         match ancs with
         | [] => false
         | a :: ancs' =>
             if matches_compound c a
             then ancestors_match chain' ancs'
             else go ancs'
         end) ancestors
  end.

Definition matches_complex (cx : complex) (t : tag) (ancestors : list tag)
  : bool :=
  match rev cx with
  | [] => false
  | c :: chain => matches_compound c t && ancestors_match chain ancestors
  end.

Definition matches (sel : selector) (t : tag) (ancestors : list tag) : bool :=
  existsb (fun cx => matches_complex cx t ancestors) sel.

(** The elements of the subtree of [n] that match, in document order;
    [ancestors] are the elements between the query's root and [n]. *)
Fixpoint select (sel : selector) (ancestors : list tag) (n : node)
  : list node :=
  match n with
  | Text _ => []
  | Element nm at_ ch =>
      (if matches sel (nm, at_) ancestors then [n] else [])
      ++ flat_map (select sel ((nm, at_) :: ancestors)) ch
  end.

(** A cheerio object: the selected nodes, in document order. *)
Definition selection := list node.

(** [$(sel)] on the loaded document, given by its top-level nodes. *)
Definition query (sel : selector) (doc : list node) : selection :=
  flat_map (select sel []) doc.

(** [$(n).find(sel)]: the descendants of [n] that match.  The search
    runs over the children of [n], so [n] is never a result; but the
    chain of a descendant selector is read from [n] itself downwards:
    [n] may be the element that a leading compound names (in
    [$(row).find('.hauptlink a')] the row itself may carry the class),
    the elements above [n] may not. *)
Definition find1 (sel : selector) (n : node) : selection :=
  match n with
  | Text _ => []
  | Element nm at_ ch => flat_map (select sel [(nm, at_)]) ch
  end.

(** [x.find(sel)].  The scraper only calls it on a selection of several
    elements to read an attribute of the first result, which the
    concatenation gives as cheerio's sorted union does. *)
Definition find (sel : selector) (x : selection) : selection :=
  flat_map (find1 sel) x.

(** [x.eq(i)] *)
Definition eq (i : nat) (x : selection) : selection :=
  match nth_error x i with
  | Some n => [n]
  | None => []
  end.

Fixpoint text1 (n : node) : jsstring :=
  match n with
  | Text d => d
  | Element _ _ ch => flat_map text1 ch
  end.

(** [x.text()] *)
Definition text (x : selection) : jsstring := flat_map text1 x.

(** [x.attr(a)]: the attribute of the first element, [None] for
    [undefined]. *)
Definition attr (a : jsstring) (x : selection) : option jsstring :=
  match x with
  | Element _ at_ _ :: _ => get_attr a at_
  | _ => None
  end.

(** Selector literals. *)
Definition by_name (n : string) : compound :=
  {| sel_name := Some (lit n); sel_classes := []; sel_attrs := [] |}.
Definition by_class (c : string) : compound :=
  {| sel_name := None; sel_classes := [lit c]; sel_attrs := [] |}.
Definition by_name_class (n c : string) : compound :=
  {| sel_name := Some (lit n); sel_classes := [lit c]; sel_attrs := [] |}.
Definition by_name_attr (n a v : string) : compound :=
  {| sel_name := Some (lit n); sel_classes := [];
     sel_attrs := [(lit a, lit v)] |}.

End Cheerio.
Import Cheerio.

(* ================================================================== *)
(** * src/tm.js *)
(* ================================================================== *)

Module Tm.

Definition ch (a : ascii) : char16 := N_of_ascii a.

Definition NA : jsstring := lit "N/A".

(** ** The patterns *)

(** r{n} *)
Fixpoint Rep (n : nat) (r : regex) : regex :=
  match n with
  | O => Eps
  | S O => r
  | S n' => Seq r (Rep n' r)
  end.

(** r{0,n}, greedy *)
Fixpoint UpTo (n : nat) (r : regex) : regex :=
  match n with
  | O => Eps
  | S n' => Opt (Seq r (UpTo n' r))
  end.

(** [/^(\d{2}\/\d{2}\/\d{4}) \((\d{2})\)$/] *)
Definition dob_re : regex :=
  Seqs [ Bol;
         Group 1 (Seqs [ Rep 2 Digit; Chr (ch "/"); Rep 2 Digit;
                         Chr (ch "/"); Rep 4 Digit ]);
         Chr (ch " "); Chr (ch "(");
         Group 2 (Rep 2 Digit);
         Chr (ch ")"); Eol ].

(** [/\d{1},\d{2}/] *)
Definition height_re : regex :=
  Seqs [ Rep 1 Digit; Chr (ch ","); Rep 2 Digit ].

(** [/(\d{1,3}(?:\.\d{3})*(?:,\d{2})?)\s*(mil|mi\.?)\s*([€$£])/] *)
Definition amount_re : regex :=
  Seqs [ Seq Digit (UpTo 2 Digit);
         Star (Seq (Chr (ch ".")) (Rep 3 Digit));
         Opt (Seq (Chr (ch ",")) (Rep 2 Digit)) ].

Definition unit_re : regex :=
  Alt (Lit (lit "mil")) (Seq (Lit (lit "mi")) (Opt (Chr (ch ".")))).

Definition currency_re : regex := OneOf [euro; ch "$"; pound].

Definition value_re : regex :=
  Seqs [ Group 1 amount_re; Star Space; Group 2 unit_re; Star Space;
         Group 3 currency_re ].

(** [/verein\/(\d+)/] *)
Definition verein_re : regex :=
  Seq (Lit (lit "verein/")) (Group 1 (Plus Digit)).

(** ** The selectors *)

Definition rows_sel : selector :=
  [ [by_name_class "table" "items"; by_name "tbody"; by_name_class "tr" "odd"];
    [by_name_class "table" "items"; by_name "tbody";
     by_name_class "tr" "even"] ].
Definition hauptlink_a : selector := [[by_class "hauptlink"; by_name "a"]].
Definition td : selector := [[by_name "td"]].
Definition rn_nummer : selector := [[by_class "rn_nummer"]].
Definition portrait_img : selector :=
  [[by_name_attr "td" "rowspan" "2"; by_name "img"]].
Definition zentriert : selector := [[by_class "zentriert"]].
Definition img : selector := [[by_name "img"]].
Definition a : selector := [[by_name "a"]].
Definition verletzt_table : selector := [[by_class "verletzt-table"]].
Definition kapitaenicon_table : selector := [[by_class "kapitaenicon-table"]].
Definition ausfall_1_table : selector := [[by_class "ausfall-1-table"]].
Definition rechts : selector := [[by_class "rechts"]].
Definition wechsel_kader_wappen_a : selector :=
  [[by_class "wechsel-kader-wappen"; by_name "a"]].

(** ** The records *)

Record MarketValue : Type := {
  value : number;
  currency : jsstring
}.

Record LastClub : Type := {
  signed_from_club_name : jsstring;
  signed_from_club_id : jsstring;
  signed_from_club_image_url : jsstring
}.

Record AdditionalInformation : Type := {
  content : jsstring;
  info_club_name : jsstring;
  info_club_id : jsstring;
  info_club_image_url : jsstring
}.

(** [None] in the last two fields is [null]. *)
Record Player : Type := {
  name : jsstring;
  id : jsstring;
  position : jsstring;
  shirtNumber : jsstring;
  image : jsstring;
  dateOfBirth : jsstring;
  age : jsstring;
  nationality : list jsstring;
  height : jsstring;
  foot : jsstring;
  injury : bool;
  captain : bool;
  suspension : bool;
  joined : jsstring;
  contractUntil : jsstring;
  marketValue : MarketValue;
  lastClub : option LastClub;
  additionalInformation : option AdditionalInformation
}.

(** ** The fields of [playerData], one definition per property of the
    object literal *)

(** [$(row)] *)
Definition jq (row : node) : selection := [row].

(** [$(row).find(sel).eq(i).text().trim()] *)
Definition cell_text (sel : selector) (i : nat) (row : node) : jsstring :=
  trim (text (eq i (find sel (jq row)))).

(** The TypeErrors of the object literal: [undefined.split(...)] when the
    first primary link has no href, [null[1]] and [null[2]] when the date
    cell does not match. *)
Definition no_split : error :=
  TypeError (lit "Cannot read properties of undefined (reading 'split')").
Definition no_match : error :=
  TypeError (lit "Cannot read properties of null (reading '1')").
Definition no_second_group : error :=
  TypeError (lit "Cannot read properties of null (reading '2')").

Definition name_of (row : node) : jsstring :=
  or_else (cell_text hauptlink_a 0 row) NA.

Definition id_of (row : node) : result jsstring :=
  match attr (lit "href") (find hauptlink_a (jq row)) with
  | None => Throw no_split
  | Some href => Ok (opt_or_else (nth_error (split (lit "spieler/") href) 1) NA)
  end.

Definition position_of (row : node) : jsstring :=
  or_else (cell_text td 4 row) NA.

Definition shirtNumber_of (row : node) : jsstring :=
  or_else (cell_text rn_nummer 0 row) NA.

Definition image_of (row : node) : jsstring :=
  opt_or_else (attr (lit "data-src") (find portrait_img (jq row))) NA.

Definition dateOfBirth_of (row : node) : result jsstring :=
  match str_match dob_re (cell_text zentriert 1 row) with
  | None => Throw no_match
  | Some m => Ok (group 1 m)
  end.

Definition age_of (row : node) : result jsstring :=
  match str_match dob_re (cell_text zentriert 1 row) with
  | None => Throw no_second_group
  | Some m => Ok (group 2 m)
  end.

Definition nationality_of (row : node) : list jsstring :=
  let nationality_element := eq 2 (find zentriert (jq row)) in
  let nationalities :=
    fold_left
      (fun nationalities i =>
         let nationality := opt_or_else (attr (lit "title") (jq i)) NA in
         if negb (str_eqb nationality NA)
         then nationalities ++ [nationality]
         else nationalities)
      (find img nationality_element) [] in
  if Nat.ltb 0 (length nationalities) then nationalities else [NA].

Definition height_of (row : node) : jsstring :=
  opt_or_else
    (option_map (group 0) (str_match height_re (cell_text zentriert 3 row)))
    NA.

Definition foot_of (row : node) : jsstring :=
  or_else (cell_text zentriert 4 row) NA.

Definition injury_of (row : node) : bool :=
  if Nat.ltb 0 (length (find verletzt_table (jq row))) then true else false.

Definition captain_of (row : node) : bool :=
  if Nat.ltb 0 (length (find kapitaenicon_table (jq row)))
  then true else false.

Definition suspension_of (row : node) : bool :=
  if Nat.ltb 0 (length (find ausfall_1_table (jq row))) then true else false.

Definition joined_of (row : node) : jsstring :=
  or_else (cell_text zentriert 5 row) NA.

Definition contractUntil_of (row : node) : jsstring :=
  or_else (cell_text zentriert 7 row) NA.

(** The body of the [marketValue] function, from the trimmed text of the
    first right-aligned cell. *)
Definition market_value (cell : jsstring) : MarketValue :=
  let marketValueText := or_else cell NA in
  let none := {| value := of_Z 0; currency := NA |} in
  if negb (str_eqb marketValueText NA) then
    match str_match value_re marketValueText with
    | Some valueMatch =>
        let rawValue :=
          replace_first (ch ",") (ch ".")
            (remove_all (ch ".") (group 1 valueMatch)) in
        let unit := group 2 valueMatch in
        let currency := group 3 valueMatch in
        let numericValue :=
          if str_eqb unit (lit "mi.")
          then mul (parseFloat rawValue) (of_Z 1000000)
          else mul (parseFloat rawValue) (of_Z 1000) in
        {| value := numericValue; currency := currency |}
    | None => none
    end
  else none.

Definition marketValue_of (row : node) : MarketValue :=
  market_value (cell_text rechts 0 row).

(** [href?.match(/verein\/(\d+)/)] and the choice that follows it. *)
Definition club_id (href : option jsstring) : jsstring :=
  match href with
  | Some h =>
      match str_match verein_re h with
      | Some clubIdMatch => group 1 clubIdMatch
      | None => NA
      end
  | None => NA
  end.

Definition lastClub_of (row : node) : option LastClub :=
  let linkElement := eq 6 (find zentriert (jq row)) in
  if Nat.ltb 0 (length linkElement) then
    let clubName :=
      opt_or_else (option_map trim (attr (lit "title") (find img linkElement)))
                  NA in
    let clubId := club_id (attr (lit "href") (find a linkElement)) in
    let clubImageUrl :=
      opt_or_else (attr (lit "src") (find img linkElement)) NA in
    Some {| signed_from_club_name := clubName;
            signed_from_club_id := clubId;
            signed_from_club_image_url := clubImageUrl |}
  else None.

Definition additionalInformation_of (row : node)
  : option AdditionalInformation :=
  let linkElement := find wechsel_kader_wappen_a (jq row) in
  if Nat.ltb 0 (length linkElement) then
    let content :=
      opt_or_else (option_map trim (attr (lit "title") linkElement)) NA in
    let clubName :=
      opt_or_else (option_map trim (attr (lit "title") (find img linkElement)))
                  NA in
    let clubId := club_id (attr (lit "href") linkElement) in
    let clubImageUrl :=
      opt_or_else (attr (lit "src") (find img linkElement)) NA in
    Some {| content := content;
            info_club_name := clubName;
            info_club_id := clubId;
            info_club_image_url := clubImageUrl |}
  else None.

(** The object literal: its properties are evaluated in order, and the
    first that throws ends the evaluation. *)
Definition playerData (row : node) : result Player :=
  let name := name_of row in
  let? id := id_of row in
  let position := position_of row in
  let shirtNumber := shirtNumber_of row in
  let image := image_of row in
  let? dateOfBirth := dateOfBirth_of row in
  let? age := age_of row in
  Ok {| name := name;
        id := id;
        position := position;
        shirtNumber := shirtNumber;
        image := image;
        dateOfBirth := dateOfBirth;
        age := age;
        nationality := nationality_of row;
        height := height_of row;
        foot := foot_of row;
        injury := injury_of row;
        captain := captain_of row;
        suspension := suspension_of row;
        joined := joined_of row;
        contractUntil := contractUntil_of row;
        marketValue := marketValue_of row;
        lastClub := lastClub_of row;
        additionalInformation := additionalInformation_of row |}.

(** [rows.each((index, row) => { ...; players.push(playerData) })] *)
Fixpoint each (rows : selection) (players : list Player)
  : result (list Player) :=
  match rows with
  | [] => Ok players
  | row :: rows' =>
      let? p := playerData row in
      each rows' (players ++ [p])
  end.

Section GetClubSquad.
(** [cheerio.load]: the document's top-level nodes. *)
Variable cheerio_load : jsstring -> result (list node).
(** [axios.get]: the body of a 2xx response; anything else is thrown. *)
Variable axios_get : jsstring -> result jsstring.

Definition squad_url (id_clube : jsstring) : jsstring :=
  lit "https://www.transfermarkt.com.br/club/kader/verein/"
  ++ id_clube ++ lit "/plus/1".

Local Open Scope js_scope.

Definition getClubSquad (id_clube : jsstring) : M (list Player) :=
  let url := squad_url id_clube in
  try_catch
    (data <- lift (axios_get url) ;;
     doc <- lift (cheerio_load data) ;;
     players <- lift (each (query rows_sel doc) []) ;;
     ret players)
    (fun error =>
       console_error error ;;
       ret []).
End GetClubSquad.

End Tm.
Import Tm.

(* ================================================================== *)
(** * index.js *)
(* ================================================================== *)

Module Index.

(** What a handler sends: [res.json(players)], [res.json({ message })] or
    [res.send(text)]. *)
Inductive body : Type :=
| Players (players : list Player)
| Message (message : jsstring)
| Plain (text : jsstring).

(** The response: [res.status(code)] when the handler sets one, 200
    otherwise. *)
Record response : Type := {
  status : nat;
  sent : body
}.

(** [app.get('/', ...)] *)
Definition root : response :=
  {| status := 200; sent := Plain (lit "Welcome to API.") |}.

Section Routes.
Variable cheerio_load : jsstring -> result (list node).
Variable axios_get : jsstring -> result jsstring.

Local Open Scope js_scope.

(** [app.get('/api/club/:id/players', ...)], from [req.params.id]. *)
Definition club_players (clubId : jsstring) : M response :=
  try_catch
    (players <- getClubSquad cheerio_load axios_get clubId ;;
     ret {| status := 200; sent := Players players |})
    (fun error =>
       console_error error ;;
       ret {| status := 500;
              sent := Message (lit "Erro ao buscar dados dos jogadores") |}).
End Routes.

End Index.
Import Index.

(* ================================================================== *)
(** * Sample pages *)
(* ================================================================== *)

Module Sample.

Local Open Scope string_scope.

Definition E (n : string) (attrs : list (string * string))
           (children : list node) : node :=
  Element (lit n) (map (fun av => (lit (fst av), lit (snd av))) attrs)
          children.

Definition T (s : string) : node := Text (lit s).

Definition centered (children : list node) : node :=
  E "td" [("class", "zentriert")] children.

(** A marker icon in the name cell. *)
Definition icon (cls : string) : node :=
  E "span" [("class", cls)] [].

(** The roster row of the example in the documentation of [getClubSquad],
    with the parts the properties vary: marker icons, the date cell, the
    nationality cell, the cells after the "joined" cell, the market-value
    text and the loan badge. *)
Definition row_with (icons : list node) (dob : list node)
           (flags : list node) (tail : list node) (mv : jsstring)
           (badge : list node) : node :=
  E "tr" [("class", "odd")]
    ([ E "td" [("class", "zentriert rueckennummer bg_Torwart")]
         [ E "div" [("class", "rn_nummer")] [T "1"] ];
       E "td" [("class", "posrela")]
         [ E "table" [("class", "inline-table")]
             [ E "tbody" []
                 [ E "tr" []
                     [ E "td" [("rowspan", "2")]
                         [ E "img"
                             [("data-src",
                               "https://img.a.transfermarkt.technology/portrait/medium/574901-1673960343.jpg?lm=1");
                              ("class", "bilderrahmen-fixed lazy lazy")] [] ];
                       E "td" [("class", "hauptlink")]
                         ([ E "a" [("href", "/hugo-souza/profil/spieler/574901")]
                              [T "  Hugo Souza  "] ] ++ icons ++ badge)%list ];
                   E "tr" [] [ E "td" [] [T "Goleiro"] ] ] ] ];
       centered dob;
       centered flags;
       centered [T "1,99m"];
       centered [T "direito"];
       centered [T "10/07/2024"] ] ++ tail ++
     [ E "td" [("class", "rechts hauptlink")] [ E "a" [] [Text mv] ] ])%list.

Definition flag (country : string) : node :=
  E "img" [("title", country); ("class", "flaggenrahmen")] [].

Definition signed_from : node :=
  centered
    [ E "a" [("href", "/cr-flamengo/startseite/verein/614/saison_id/2023")]
        [ E "img"
            [("src",
              "https://tmssl.akamaized.net//images/wappen/verysmall/614.png?lm=1551023331");
             ("title", "CR Flamengo")] [] ] ].

Definition loan_badge : node :=
  E "span" [("class", "wechsel-kader-wappen hide-for-small")]
    [ E "a" [("title", "Emprestado do: CR Flamengo; Ate: 31/12/2024");
             ("href", "/cr-flamengo/startseite/verein/614")]
        [ E "img"
            [("src",
              "https://tmssl.akamaized.net//images/wappen/kaderquad/614.png?lm=1551023331");
             ("title", "CR Flamengo")] [] ] ].

Definition four_million : jsstring := (lit "4,00 mi. " ++ [euro])%list.

Definition hugo_souza : node :=
  row_with [] [T "31/01/1999 (25)"] [flag "Brasil"]
    [signed_from; centered [T "31/12/2024"]] four_million [loan_badge].

(** A page holding the given roster rows. *)
Definition page (rows : list node) : list node :=
  [ E "html" []
      [ E "body" []
          [ E "table" [("class", "items")] [ E "tbody" [] rows ] ] ] ].

(** ** Rows for particular cases *)

Definition dated : list node := [T "31/01/1999 (25)"].

Definition contract_cell : node := centered [T "31/12/2024"].

(** The date cell holds a dash. *)
Definition undated : node :=
  row_with [] [T "-"] [flag "Brasil"] [signed_from; contract_cell]
    four_million [].

(** The "signed from" cell is there, with nothing in it. *)
Definition vacant_signed_from : node :=
  row_with [] dated [flag "Brasil"] [centered []; contract_cell]
    four_million [].

(** The row ends after the "joined" cell: no "signed from" cell, no
    badge. *)
Definition short_row : node :=
  row_with [] dated [flag "Brasil"] [] four_million [].

Definition dual_national : node :=
  row_with [] dated [flag "Brasil"; flag "Portugal"]
    [signed_from; contract_cell] four_million [].

Definition stateless : node :=
  row_with [] dated [] [signed_from; contract_cell] four_million [].

(** A row with the marker icons asked for. *)
Definition marked_row (injured captain suspended : bool) : node :=
  row_with
    ((if injured then [icon "verletzt-table icons_sprite"] else [])
     ++ (if captain then [icon "kapitaenicon-table icons_sprite"] else [])
     ++ (if suspended then [icon "ausfall-1-table icons_sprite"] else []))%list
    dated [flag "Brasil"] [signed_from; contract_cell] four_million [].

(** A link with its href and a date cell, and nothing else. *)
Definition bare_row : node :=
  E "tr" [("class", "even")]
    [ E "td" [("class", "hauptlink")]
        [ E "a" [("href", "/profil/7")] [] ];
      centered [];
      centered dated ].

Definition half_million : jsstring := (lit "500 mil " ++ [euro])%list.

(** The unit without its dot. *)
Definition four_thousand : jsstring := (lit "4,00 mi " ++ [euro])%list.

(** A one followed by 103 groups of three zeros: 10^309. *)
Definition beyond_binary64 : jsstring :=
  (lit "1" ++ concat (repeat (lit ".000") 103) ++ lit " mi. " ++ [euro])%list.

Definition overpriced : node :=
  row_with [] dated [flag "Brasil"] [signed_from; contract_cell]
    beyond_binary64 [].

(** Upstreams. *)
Definition network_down : jsstring -> result jsstring :=
  fun _ => Throw (HostError (lit "Network Error")).

Definition serves (body : string) : jsstring -> result jsstring :=
  fun _ => Ok (lit body).

(** The same body for the squad of club 614, nothing for any other
    address. *)
Definition serves_only_614 (body : string) : jsstring -> result jsstring :=
  fun url =>
    if str_eqb url (squad_url (lit "614")) then Ok (lit body)
    else Throw (HostError (lit "Request failed with status code 404")).

Definition loads (doc : list node) : jsstring -> result (list node) :=
  fun _ => Ok doc.

End Sample.
Import Sample.

(* ================================================================== *)
(** * Vocabulary of the properties *)
(* ================================================================== *)

Module Spec.

(** No capturing group occurs in the pattern. *)
Fixpoint groupfree (r : regex) : bool :=
  match r with
  | Seq r1 r2 | Alt r1 r2 => groupfree r1 && groupfree r2
  | Star r1 => groupfree r1
  | Group _ _ => false
  | _ => true
  end.

(** The words a pattern can consume, anchors aside. *)
Inductive lang : regex -> jsstring -> Prop :=
| lang_eps : lang Eps []
| lang_bol : lang Bol []
| lang_eol : lang Eol []
| lang_char r c : accepts_char r c = true -> lang r [c]
| lang_seq r1 r2 w1 w2 :
    lang r1 w1 -> lang r2 w2 -> lang (Seq r1 r2) (w1 ++ w2)
| lang_alt_l r1 r2 w : lang r1 w -> lang (Alt r1 r2) w
| lang_alt_r r1 r2 w : lang r2 w -> lang (Alt r1 r2) w
| lang_star_nil r : lang (Star r) []
| lang_star_app r w1 w2 :
    lang r w1 -> lang (Star r) w2 -> lang (Star r) (w1 ++ w2)
| lang_group i r w : lang r w -> lang (Group i r) w.

(** The date cell as the documentation words it: [DD/MM/YYYY (AA)]. *)
Definition is_dob_text (s : jsstring) : bool :=
  match s with
  | [d1; d2; s1; m1; m2; s2; y1; y2; y3; y4; sp; lp; a1; a2; rp] =>
      forallb is_digit [d1; d2; m1; m2; y1; y2; y3; y4; a1; a2]
      && str_eqb [s1; s2; sp; lp; rp] (lit "// ()")
  | _ => false
  end.

(** The sign of a Number that is not NaN. *)
Definition has_sign (s : bool) (x : number) : Prop :=
  match x with
  | S754_zero s' | S754_infinity s' | S754_finite s' _ _ => s' = s
  | S754_nan => False
  end.

(** The characters of a decimal numeral: digits and the dot. *)
Definition dec_char (c : char16) : bool := is_digit c || (c =? 46)%N.

(** [d] lies strictly inside [n]. *)
Inductive descendant (d : node) : node -> Prop :=
| descendant_child nm at_ ch :
    In d ch -> descendant d (Element nm at_ ch)
| descendant_deeper nm at_ ch c :
    In c ch -> descendant d c -> descendant d (Element nm at_ ch).

(** [n] is an element whose [class] attribute lists [c]. *)
Definition carries_class (c : string) (n : node) : Prop :=
  match n with
  | Element nm at_ _ => has_class (lit c) (nm, at_) = true
  | Text _ => False
  end.

(** The row holds a marker icon of class [c]. *)
Definition marked (c : string) (row : node) : Prop :=
  exists d, descendant d row /\ carries_class c d.

(** [$(i).attr('title') || 'N/A'] *)
Definition resolved_title (i : node) : jsstring :=
  opt_or_else (attr (lit "title") (jq i)) NA.

(** The titles a nationality cell yields: those of its images, in document
    order, without the ones that resolve to "N/A". *)
Definition flag_titles (cell : selection) : list jsstring :=
  filter (fun t => negb (str_eqb t NA))
         (map resolved_title (find img cell)).

(** The three ways the body of the [try] block can fail. *)
Inductive pipeline_fails
          (cheerio_load : jsstring -> result (list node))
          (axios_get : jsstring -> result jsstring)
          (id_clube : jsstring) (e : error) : Prop :=
| fetch_fails :
    axios_get (squad_url id_clube) = Throw e ->
    pipeline_fails cheerio_load axios_get id_clube e
| load_fails data :
    axios_get (squad_url id_clube) = Ok data ->
    cheerio_load data = Throw e ->
    pipeline_fails cheerio_load axios_get id_clube e
| extraction_fails data doc :
    axios_get (squad_url id_clube) = Ok data ->
    cheerio_load data = Ok doc ->
    each (query rows_sel doc) [] = Throw e ->
    pipeline_fails cheerio_load axios_get id_clube e.

(** A finite Number of magnitude at most [c * 2^t]. *)
Definition at_most (c t : Z) (x : number) : Prop :=
  match x with
  | S754_zero _ => True
  | S754_finite _ m e => (e <= t /\ Z.pos m <= c * 2 ^ (t - e))%Z
  | _ => False
  end.

(** [rawValue]: the amount without its thousands separators and with a
    decimal point. *)
Definition raw_value (amount : jsstring) : jsstring :=
  replace_first (ch ",") (ch ".") (remove_all (ch ".") amount).

(** The multiplier the unit selects. *)
Definition multiplier (unit : jsstring) : Z :=
  if str_eqb unit (lit "mi.") then 1000000%Z else 1000%Z.

(** What an amount means, read as the site writes it: its digits spell an
    integer, the dots between them being thousands separators, *)
Definition amount_digits (amount : jsstring) : N :=
  digits_value (filter is_digit amount).

(** and a comma, when there is one, makes the last two digits decimals:
    the amount is [amount_digits * 10 ^ amount_scale]. *)
Definition amount_scale (amount : jsstring) : Z :=
  if existsb (N.eqb (ch ",")) amount then (-2)%Z else 0%Z.

(** The largest product of amount and multiplier, written as the integer
    [amount_digits * multiplier], for which the value is shown to be
    finite: 1.797 * 10^308, the largest Number being about
    1.7977 * 10^308. *)
Definition finite_below (scale : Z) : Z := (1797 * 10 ^ (305 - scale))%Z.

(** The defaults of the optional records. *)
Definition no_value : MarketValue := {| value := of_Z 0; currency := NA |}.

Definition blank_club : LastClub :=
  {| signed_from_club_name := NA;
     signed_from_club_id := NA;
     signed_from_club_image_url := NA |}.

(** The record [playerData] builds once the three properties that can
    throw have their values. *)
Definition player_of (row : node) (i d a : jsstring) : Player :=
  {| name := name_of row;
     id := i;
     position := position_of row;
     shirtNumber := shirtNumber_of row;
     image := image_of row;
     dateOfBirth := d;
     age := a;
     nationality := nationality_of row;
     height := height_of row;
     foot := foot_of row;
     injury := injury_of row;
     captain := captain_of row;
     suspension := suspension_of row;
     joined := joined_of row;
     contractUntil := contractUntil_of row;
     marketValue := marketValue_of row;
     lastClub := lastClub_of row;
     additionalInformation := additionalInformation_of row |}.

(** The player the sample rows are extracted to. *)
Definition sample_player (row : node) : Player :=
  player_of row (lit "574901") (lit "31/01/1999") (lit "25").

End Spec.
Import Spec.

(* ================================================================== *)
(** * More sample rows *)
(* ================================================================== *)

Module MoreSamples.

Local Open Scope string_scope.

(** A row without a primary link. *)
Definition unlinked : node :=
  E "tr" [("class", "odd")] [ centered []; centered dated ].

(** A header row: a [tr] without the striping classes. *)
Definition header_row : node :=
  E "tr" [] [ E "th" [] [T "Jogadores"] ].

(** A page whose roster table has a header and two rows, next to a table of
    another class that holds a striped row. *)
Definition two_tables : list node :=
  [ E "html" []
      [ E "body" []
          [ E "table" [("class", "items")]
              [ E "thead" [] [header_row];
                E "tbody" [] [hugo_souza; dual_national] ];
            E "table" [("class", "auflistung")]
              [ E "tbody" [] [stateless] ] ] ] ].

(** The sample row with another text in its market-value cell. *)
Definition priced (mv : jsstring) : node :=
  row_with [] dated [flag "Brasil"] [signed_from; contract_cell] mv [].

(** Two separators of thousands and two decimals. *)
Definition one_and_a_half_billion : jsstring :=
  (lit "1.500.000,50 mil " ++ [euro])%list.

(** 179 and 180 followed by a hundred groups of three zeros, in millions:
    1.79 * 10^308 and 1.8 * 10^308, on either side of the largest
    Number. *)
Definition largest_priced : jsstring :=
  (lit "179" ++ concat (repeat (lit ".000") 100) ++ lit " mi. " ++ [euro])%list.

Definition least_overpriced : jsstring :=
  (lit "180" ++ concat (repeat (lit ".000") 100) ++ lit " mi. " ++ [euro])%list.

(** A row that carries the class of the name cell itself, its link lying
    in a cell without that class. *)
Definition row_as_name_cell : node :=
  E "tr" [("class", "odd hauptlink")]
    [ E "td" [] [ E "a" [("href", "/a/profil/spieler/1")] [T "A"] ];
      centered [];
      centered dated ].

(** The same, with a second link in a name cell. *)
Definition two_links : node :=
  E "tr" [("class", "odd hauptlink")]
    [ E "td" [] [ E "a" [("href", "/a/profil/spieler/1")] [T "A"] ];
      E "td" [("class", "hauptlink")]
        [ E "a" [("href", "/b/profil/spieler/2")] [T "B"] ];
      centered [];
      centered dated ].

(** A row that carries the class of the transfer badge itself. *)
Definition titled_link : node :=
  E "a" [("href", "/a/profil/spieler/1");
         ("title", "Emprestado do: CR Flamengo")] [T "A"].

Definition name_cell (children : list node) : node :=
  E "td" [("class", "hauptlink")] children.

Definition row_as_badge : node :=
  E "tr" [("class", "odd wechsel-kader-wappen")]
    [ name_cell [titled_link]; centered []; centered dated ].

(** The same, with a link of its own before a badge. *)
Definition two_badges : node :=
  E "tr" [("class", "odd wechsel-kader-wappen")]
    [ name_cell
        [ E "a" [("href", "/a/profil/spieler/1/verein/1")] [T "A"];
          E "span" [("class", "wechsel-kader-wappen")]
            [ E "a" [("href", "/b/startseite/verein/2"); ("title", "B")]
                [] ] ];
      centered [];
      centered dated ].

(** The sample row without its shirt number and its portrait. *)
Definition unnumbered : node :=
  E "tr" [("class", "odd")]
    [ E "td" [("class", "zentriert rueckennummer bg_Torwart")] [];
      E "td" [("class", "posrela")]
        [ E "table" [("class", "inline-table")]
            [ E "tbody" []
                [ E "tr" []
                    [ E "td" [("class", "hauptlink")]
                        [ E "a" [("href", "/hugo-souza/profil/spieler/574901")]
                            [T "  Hugo Souza  "]; loan_badge ] ];
                  E "tr" [] [ E "td" [] [T "Goleiro"] ] ] ] ];
      centered [T "31/01/1999 (25)"];
      centered [flag "Brasil"];
      centered [T "1,99m"];
      centered [T "direito"];
      centered [T "10/07/2024"];
      signed_from;
      centered [T "31/12/2024"];
      E "td" [("class", "rechts hauptlink")]
        [ E "a" [] [Text four_million] ] ].

End MoreSamples.
Import MoreSamples.

(* ================================================================== *)
(** * More vocabulary *)
(* ================================================================== *)

Module Vocabulary.

(** [s.indexOf(sep)]: where [sep] first occurs in [s]. *)
Fixpoint index_of (sep s : jsstring) : option nat :=
  if is_prefix sep s then Some 0
  else match s with
       | [] => None
       | _ :: s' => option_map S (index_of sep s')
       end.

(** What lies between the first occurrence of [sep] and the next one, or
    the end. *)
Definition after_first (sep s : jsstring) : option jsstring :=
  match index_of sep s with
  | None => None
  | Some n =>
      let rest := skipn (n + length sep) s in
      match index_of sep rest with
      | None => Some rest
      | Some k => Some (firstn k rest)
      end
  end.

(** The row is extracted. *)
Definition extracts (row : node) : bool :=
  match playerData row with
  | Ok _ => true
  | Throw _ => false
  end.

(** [n] is an element of the given name. *)
Definition element_named (nm : string) (n : node) : Prop :=
  match n with
  | Element name _ _ => name = lit nm
  | Text _ => False
  end.

(** [row] is a [tr] of class [odd] or [even] inside a [tbody] inside a
    [table] of class [items] of the document. *)
Definition roster_row (doc : list node) (row : node) : Prop :=
  exists top table tbody,
    In top doc
    /\ (table = top \/ descendant table top)
    /\ descendant tbody table
    /\ descendant row tbody
    /\ element_named "table" table /\ carries_class "items" table
    /\ element_named "tbody" tbody
    /\ element_named "tr" row
    /\ (carries_class "odd" row \/ carries_class "even" row).

(** [up] lists, nearest first, the elements one goes through from [d] up
    to [n], [n] included when [d] is not [n]. *)
Inductive path : list tag -> node -> node -> Prop :=
| path_here d : path [] d d
| path_down nm at_ ch c up d :
    In c ch -> path up d c -> path (up ++ [(nm, at_)]) d (Element nm at_ ch).

(** The compounds of [chain] are matched, in order, by some of the
    [ancestors]. *)
Inductive embeds : list compound -> list tag -> Prop :=
| embeds_nil ancestors : embeds [] ancestors
| embeds_skip c chain a ancestors :
    embeds (c :: chain) ancestors -> embeds (c :: chain) (a :: ancestors)
| embeds_take c chain a ancestors :
    matches_compound c a = true -> embeds chain ancestors ->
    embeds (c :: chain) (a :: ancestors).

(** The string is "N/A" or a run of one digit or more. *)
Definition numeric_or_na (s : jsstring) : Prop :=
  s = NA \/ (s <> [] /\ forallb is_digit s = true).

(** A height: a digit, a comma, two digits. *)
Definition is_height (s : jsstring) : bool :=
  match s with
  | [m; c; d1; d2] =>
      is_digit m && N.eqb c (ch ",") && is_digit d1 && is_digit d2
  | _ => false
  end.

(** The string does not start with white space. *)
Definition clean_start (s : jsstring) : Prop :=
  match s with
  | [] => True
  | c :: _ => is_space c = false
  end.

(** The string neither starts nor ends with white space. *)
Definition trimmed (s : jsstring) : Prop :=
  clean_start s /\ clean_start (rev s).

(** The compounds above the last one in the selector of the roster rows,
    innermost first. *)
Definition above_rows : list compound :=
  [by_name "tbody"; by_name_class "table" "items"].

(** No [^] occurs in the pattern. *)
Fixpoint bolfree (r : regex) : bool :=
  match r with
  | Bol => false
  | Seq r1 r2 | Alt r1 r2 => bolfree r1 && bolfree r2
  | Star r1 | Group _ r1 => bolfree r1
  | _ => true
  end.

(** [d] lies inside an element of class [c] that is the row or lies
    inside the row. *)
Definition under_class (c : string) (row d : node) : Prop :=
  exists w,
    carries_class c w /\ (w = row \/ descendant w row) /\ descendant d w.

(** A transfer-badge link of the row: an [a] element under the class
    [wechsel-kader-wappen]. *)
Definition badge_link (row d : node) : Prop :=
  element_named "a" d /\ under_class "wechsel-kader-wappen" row d.

(** A primary link of the row: an [a] element under the class
    [hauptlink]. *)
Definition primary_link (row d : node) : Prop :=
  element_named "a" d /\ under_class "hauptlink" row d.

(** The two rows hold the same [i]th result for the query [sel]: the
    sub-element a rule reads. *)
Definition same_part (sel : selector) (i : nat) (row row' : node) : Prop :=
  eq i (find sel (jq row)) = eq i (find sel (jq row')).

(** The query has a result in both rows or in neither. *)
Definition same_presence (sel : selector) (row row' : node) : Prop :=
  find sel (jq row) = [] <-> find sel (jq row') = [].

(** [id] is a run of digits that follows [marker] in [href] and is not
    followed by a digit. *)
Definition digits_after (marker href id : jsstring) : Prop :=
  exists pre rest,
    href = pre ++ marker ++ id ++ rest
    /\ id <> [] /\ forallb is_digit id = true
    /\ match rest with
       | [] => True
       | c :: _ => is_digit c = false
       end.

End Vocabulary.
Import Vocabulary.

Unset Implicit Arguments.

(* ================================================================== *)
(** * The regular-expression engine *)
(* ================================================================== *)

Module RegexFacts.

#[local] Hint Constructors lang : core.

Lemma rmatch_sound (A : Type) (whole : jsstring) (r : regex) :
  groupfree r = true ->
  forall s cs k (x : A),
    rmatch whole r s cs k = Some x ->
    exists w s', s = w ++ s' /\ lang r w /\ k s' cs = Some x.
Proof.
  induction r as [ | | | c | | | l | r1 IH1 r2 IH2 | r1 IH1 r2 IH2 | r1 IH1 | i r1 IH1 ];
    simpl; intros GF s cs k x H.
  - exists [], s; auto.
  - destruct (Nat.eqb _ _); [ exists [], s; auto | discriminate ].
  - destruct s; [ exists [], []; auto | discriminate ].
  - destruct s as [ | d s ]; [ discriminate | ].
    destruct (N.eqb d c) eqn:E; [ | discriminate ].
    exists [d], s; repeat split; auto.
  - destruct s as [ | d s ]; [ discriminate | ].
    destruct (is_digit d) eqn:E; [ | discriminate ].
    exists [d], s; repeat split; auto.
  - destruct s as [ | d s ]; [ discriminate | ].
    destruct (is_space d) eqn:E; [ | discriminate ].
    exists [d], s; repeat split; auto.
  - destruct s as [ | d s ]; [ discriminate | ].
    destruct (existsb (N.eqb d) l) eqn:E; [ | discriminate ].
    exists [d], s; repeat split; auto.
  - apply andb_true_iff in GF as [G1 G2].
    apply (IH1 G1) in H as (w1 & s1 & -> & L1 & H).
    apply (IH2 G2) in H as (w2 & s2 & -> & L2 & H).
    exists (w1 ++ w2), s2; rewrite app_assoc; auto.
  - apply andb_true_iff in GF as [G1 G2].
    destruct (rmatch whole r1 s cs k) eqn:E.
    + injection H as ->. apply (IH1 G1) in E as (w & s' & -> & L & E).
      exists w, s'; auto.
    + apply (IH2 G2) in H as (w & s' & -> & L & E').
      exists w, s'; auto.
  - revert H. generalize (length s) at 1. intros fuel. revert s cs.
    induction fuel as [ | fuel IHf ]; intros s cs H.
    + exists [], s; auto.
    + match type of H with
      | match ?m with _ => _ end = _ => destruct m eqn:E
      end.
      * injection H as ->.
        apply (IH1 GF) in E as (w1 & s1 & -> & L1 & E).
        destruct (Nat.ltb _ _); [ | discriminate ].
        apply IHf in E as (w2 & s2 & -> & L2 & E).
        exists (w1 ++ w2), s2; rewrite app_assoc; auto.
      * exists [], s; auto.
  - discriminate.
Qed.

Lemma firstn_consumed (w s : jsstring) :
  firstn (length (w ++ s) - length s) (w ++ s) = w.
Proof.
  rewrite length_app, Nat.add_sub.
  rewrite firstn_app, Nat.sub_diag, firstn_all. simpl. apply app_nil_r.
Qed.

(** A capturing group around a pattern without groups binds what the
    pattern consumed. *)
Lemma rmatch_group (A : Type) (whole : jsstring) (i : nat) (r : regex) :
  groupfree r = true ->
  forall s cs k (x : A),
    rmatch whole (Group i r) s cs k = Some x ->
    exists w s', s = w ++ s' /\ lang r w /\ k s' ((i, w) :: cs) = Some x.
Proof.
  intros GF s cs k x H. simpl in H.
  apply rmatch_sound in H as (w & s' & -> & L & H); [ | exact GF ].
  rewrite firstn_consumed in H. exists w, s'; auto.
Qed.

Lemma search_found (r : regex) (whole s : jsstring) (m : captures) :
  search r whole s = Some m ->
  exists pre s0, s = pre ++ s0 /\ match_here r whole s0 = Some m.
Proof.
  induction s as [ | c s IH ]; simpl.
  - destruct (match_here r whole []) eqn:E; [ | discriminate ].
    intros [= <-]. exists [], []; auto.
  - destruct (match_here r whole (c :: s)) eqn:E.
    + intros [= <-]. exists [], (c :: s); auto.
    + intros H. apply IH in H as (pre & s0 & -> & H).
      exists (c :: pre), s0; auto.
Qed.




Lemma match_here_bol (r : regex) (whole : jsstring) (c : char16)
      (pre s : jsstring) :
  whole = c :: pre ++ s -> match_here (Seq Bol r) whole s = None.
Proof.
  intros ->. unfold match_here. simpl.
  rewrite length_app.
  destruct (Nat.eqb_spec (length s) (S (length pre + length s)));
    [ lia | reflexivity ].
Qed.

Lemma search_bol (r : regex) (whole : jsstring) (c : char16)
      (pre s : jsstring) :
  whole = c :: pre ++ s -> search (Seq Bol r) whole s = None.
Proof.
  revert pre. induction s as [ | d s IH ]; intros pre E; simpl.
  - now rewrite (match_here_bol r _ _ _ _ E).
  - rewrite (match_here_bol r _ _ _ _ E).
    apply (IH (pre ++ [d])). now rewrite <- app_assoc.
Qed.

Lemma str_match_bol (r : regex) (s : jsstring) :
  str_match (Seq Bol r) s = match_here (Seq Bol r) s s.
Proof.
  unfold str_match. destruct s as [ | c s ]; simpl.
  - now destruct (match_here (Seq Bol r) [] []).
  - destruct (match_here (Seq Bol r) (c :: s) (c :: s)); [ reflexivity | ].
    now apply (search_bol r _ c []).
Qed.

Ltac next_char H :=
  match type of H with
  | context [match ?s with [] => _ | _ :: _ => _ end] =>
      is_var s; destruct s as [ | ?c s ]; [ discriminate H | ];
      cbn [accepts_char] in H
  end;
  match type of H with
  | context [if ?b then _ else None] =>
      let E := fresh "E" in destruct b eqn:E; [ | discriminate H ]
  end.

Lemma dob_re_sound (s : jsstring) (m : captures) :
  str_match dob_re s = Some m -> is_dob_text s = true.
Proof.
  unfold dob_re, Seqs. rewrite str_match_bol.
  unfold match_here. cbn [rmatch Rep Seqs].
  rewrite Nat.eqb_refl. intros H.
  do 15 next_char H.
  destruct s; [ | discriminate H ].
  unfold ch in *. cbn [N_of_ascii N.add N.mul Pos.add Pos.mul N_of_digits] in *.
  repeat match goal with
         | E : N.eqb _ _ = true |- _ => apply N.eqb_eq in E; subst
         end.
  simpl.
  repeat match goal with
         | D : is_digit _ = true |- _ => rewrite D; clear D
         end.
  reflexivity.
Qed.


Lemma dob_re_complete (s : jsstring) :
  is_dob_text s = true ->
  str_match dob_re s
  = Some [(0, s); (2, firstn 2 (skipn 12 s)); (1, firstn 10 s)].
Proof.
  intros H. unfold is_dob_text in H.
  do 15 (destruct s as [ | ?c s ]; [ discriminate H | ]).
  destruct s; [ | discriminate H ].
  apply andb_true_iff in H as [D C].
  cbn [forallb] in D. cbn [str_eqb lit map list_ascii_of_string] in C.
  repeat match goal with
         | H : _ && _ = true |- _ => apply andb_true_iff in H as [? ?]
         | H : N.eqb _ _ = true |- _ => apply N.eqb_eq in H; subst
         end.
  unfold dob_re, Seqs. rewrite str_match_bol.
  unfold match_here. cbn [rmatch Rep Seqs accepts_char length].
  rewrite Nat.eqb_refl.
  repeat match goal with
         | H : is_digit _ = true |- _ => rewrite H; clear H
         end.
  reflexivity.
Qed.

(** The regular expression for the date cell accepts exactly the texts of
    the documented shape, and binds the date and the age. *)
Lemma dob_re_spec (s : jsstring) :
  str_match dob_re s
  = if is_dob_text s
    then Some [(0, s); (2, firstn 2 (skipn 12 s)); (1, firstn 10 s)]
    else None.
Proof.
  destruct (is_dob_text s) eqn:E.
  - now apply dob_re_complete.
  - destruct (str_match dob_re s) eqn:M; [ | reflexivity ].
    apply dob_re_sound in M. congruence.
Qed.

(** ** The market-value pattern *)

Lemma rmatch_seq (A : Type) (whole : jsstring) (r1 r2 : regex)
      (s : jsstring) (cs : captures) (k : jsstring -> captures -> option A) :
  rmatch whole (Seq r1 r2) s cs k
  = rmatch whole r1 s cs (fun s' cs' => rmatch whole r2 s' cs' k).
Proof. reflexivity. Qed.

(** The three groups take part in every match of the market-value
    pattern, and hold an amount, a unit and a currency. *)
Lemma value_re_captures (t : jsstring) (m : captures) :
  str_match value_re t = Some m ->
  exists w1 w2 w3,
    capture 1 m = Some w1 /\ capture 2 m = Some w2 /\ capture 3 m = Some w3
    /\ lang amount_re w1 /\ lang unit_re w2 /\ lang currency_re w3.
Proof.
  unfold str_match. intros H.
  apply search_found in H as (pre & s & _ & H).
  unfold match_here, value_re in H. cbn [Seqs] in H.
  rewrite rmatch_seq in H.
  apply rmatch_group in H as (w1 & s1 & -> & L1 & H); [ | reflexivity ].
  rewrite rmatch_seq in H.
  apply rmatch_sound in H as (sp1 & s2 & -> & _ & H); [ | reflexivity ].
  rewrite rmatch_seq in H.
  apply rmatch_group in H as (w2 & s3 & -> & L2 & H); [ | reflexivity ].
  rewrite rmatch_seq in H.
  apply rmatch_sound in H as (sp2 & s4 & -> & _ & H); [ | reflexivity ].
  apply rmatch_group in H as (w3 & s5 & -> & L3 & H); [ | reflexivity ].
  injection H as <-.
  exists w1, w2, w3. cbn [capture Nat.eqb]. auto 10.
Qed.

Lemma value_re_groups (t : jsstring) (m : captures) :
  str_match value_re t = Some m ->
  lang amount_re (group 1 m) /\ lang unit_re (group 2 m)
  /\ lang currency_re (group 3 m).
Proof.
  intros H.
  apply value_re_captures in H as (w1 & w2 & w3 & C1 & C2 & C3 & L).
  unfold group. now rewrite C1, C2, C3.
Qed.

(** ** The other patterns *)

(** Whatever a match returns, its continuation returned it. *)
Lemma rmatch_result (A : Type) (whole : jsstring) (r : regex) :
  forall s cs k (x : A),
    rmatch whole r s cs k = Some x -> exists s' cs', k s' cs' = Some x.
Proof.
  induction r as [ | | | c | | | l | r1 IH1 r2 IH2 | r1 IH1 r2 IH2
                 | r1 IH1 | i r1 IH1 ];
    simpl; intros s cs k x H; eauto.
  - destruct (Nat.eqb _ _); [ eauto | discriminate ].
  - destruct s; [ eauto | discriminate ].
  - destruct s as [ | d s ]; [ discriminate | ].
    destruct (N.eqb d c); [ eauto | discriminate ].
  - destruct s as [ | d s ]; [ discriminate | ].
    destruct (is_digit d); [ eauto | discriminate ].
  - destruct s as [ | d s ]; [ discriminate | ].
    destruct (is_space d); [ eauto | discriminate ].
  - destruct s as [ | d s ]; [ discriminate | ].
    destruct (existsb (N.eqb d) l); [ eauto | discriminate ].
  - apply IH1 in H as (s1 & cs1 & H). now apply IH2 in H.
  - destruct (rmatch whole r1 s cs k) eqn:X.
    + injection H as ->. now apply IH1 in X.
    + now apply IH2 in H.
  - revert H. generalize (length s) at 1. intros fuel. revert s cs.
    induction fuel as [ | fuel IHf ]; intros s cs H; [ eauto | ].
    match type of H with
    | match ?v with _ => _ end = _ => destruct v eqn:X
    end; [ | eauto ].
    injection H as ->. apply IH1 in X as (s1 & cs1 & X).
    destruct (Nat.ltb _ _); [ | discriminate ]. now apply IHf in X.
  - apply IH1 in H as (s1 & cs1 & H). eauto.
Qed.

(** Group 0, the whole match, is bound in every match. *)
Lemma str_match_group_0 (r : regex) (s : jsstring) (m : captures) :
  str_match r s = Some m -> exists w, capture 0 m = Some w.
Proof.
  unfold str_match. intros H.
  apply search_found in H as (pre & s0 & _ & H).
  unfold match_here in H. apply rmatch_result in H as (s' & cs' & H).
  injection H as <-. simpl. eauto.
Qed.

(** The club identifier is bound in every match of its pattern, to one
    digit or more. *)
Lemma verein_re_capture (href : jsstring) (m : captures) :
  str_match verein_re href = Some m ->
  exists w, capture 1 m = Some w /\ lang (Plus Digit) w.
Proof.
  unfold str_match. intros H.
  apply search_found in H as (pre & s & _ & H).
  unfold match_here, verein_re in H.
  rewrite rmatch_seq in H.
  apply rmatch_sound in H as (w0 & s1 & -> & _ & H); [ | reflexivity ].
  apply rmatch_group in H as (w & s2 & -> & L & H); [ | reflexivity ].
  injection H as <-. exists w. cbn [capture Nat.eqb]. auto.
Qed.


Ltac inv_lang :=
  repeat match goal with
         | H : lang ?r _ |- _ =>
             lazymatch r with
             | Star _ => fail
             | _ => idtac
             end;
             first [ is_var r; fail 1
                   | inversion H; clear H; subst;
                     try match goal with
                         | A : accepts_char _ _ = true |- _ =>
                             cbn [accepts_char] in A; try discriminate A
                         end ]
         end.

Lemma amount_starts_with_digit (w : jsstring) :
  lang amount_re w ->
  exists d rest, w = d :: rest /\ is_digit d = true.
Proof.
  unfold amount_re. cbn [Seqs]. intros H.
  inversion H as [ | | | r c A | r1 r2 w1 w2 H1 H2 | | | | | ]; subst;
    [ discriminate A | ].
  inversion H1 as [ | | | r c A | r1 r2 v1 v2 G1 G2 | | | | | ]; subst;
    [ discriminate A | ].
  inversion G1 as [ | | | r c A | | | | | | ]; subst.
  exists c, (v2 ++ w2); split; [ reflexivity | exact A ].
Qed.

Lemma unit_cases (w : jsstring) :
  lang unit_re w -> w = lit "mil" \/ w = lit "mi" \/ w = lit "mi.".
Proof.
  unfold unit_re, Opt. cbn [Lit lit map list_ascii_of_string]. intros H.
  inv_lang;
    repeat match goal with
           | A : N.eqb _ _ = true |- _ => apply N.eqb_eq in A; subst
           end; cbn; auto.
Qed.

Lemma currency_cases (w : jsstring) :
  lang currency_re w -> w = [euro] \/ w = [ch "$"] \/ w = [pound].
Proof.
  unfold currency_re. intros H.
  inversion H as [ | | | r c A | | | | | | ]; subst.
  cbn [accepts_char existsb] in A.
  repeat (apply orb_true_iff in A as [A | A]);
    try discriminate A; apply N.eqb_eq in A; subst; auto.
Qed.

End RegexFacts.
Import RegexFacts.

(* ================================================================== *)
(** * Rounding and [parseFloat] *)
(* ================================================================== *)

Module NumberFacts.


Lemma shr_1_m (mrs : shr_record) :
  (0 <= shr_m mrs -> 0 <= shr_m (shr_1 mrs) <= shr_m mrs)%Z.
Proof.
  destruct mrs as [m r s]; simpl.
  destruct m as [ | [ p | p | ] | p ]; simpl; lia.
Qed.

Lemma iter_shr_1_m (p : positive) (mrs : shr_record) :
  (0 <= shr_m mrs -> 0 <= shr_m (iter_pos shr_1 p mrs) <= shr_m mrs)%Z.
Proof.
  revert mrs. induction p as [ p IH | p IH | ]; intros mrs H; simpl.
  - pose proof (shr_1_m mrs H) as H1.
    pose proof (IH _ (proj1 H1)) as H2.
    pose proof (IH _ (proj1 H2)) as H3. lia.
  - pose proof (IH _ H) as H2.
    pose proof (IH _ (proj1 H2)) as H3. lia.
  - now apply shr_1_m.
Qed.

Lemma shr_record_of_loc_m (m : Z) (l : location) :
  shr_m (shr_record_of_loc m l) = m.
Proof. now destruct l as [ | [ | | ] ]. Qed.

Lemma shr_fexp_m (m e : Z) (l : location) :
  (0 <= m ->
   0 <= shr_m (fst (shr_fexp prec emax m e l)) <= m)%Z.
Proof.
  intros H. unfold shr_fexp, shr.
  destruct (fexp prec emax (Zdigits2 m + e) - e)%Z; simpl;
    rewrite ?shr_record_of_loc_m; try lia.
  pose proof (iter_shr_1_m p (shr_record_of_loc m l)) as B.
  rewrite shr_record_of_loc_m in B. auto.
Qed.

Lemma round_nearest_even_m (m : Z) (l : location) :
  (0 <= m -> m <= round_nearest_even m l <= m + 1)%Z.
Proof.
  intros H. destruct l as [ | [ | | ] ]; simpl; try lia.
  destruct (Z.even m); lia.
Qed.

(** Rounding keeps the sign it is given and never yields NaN. *)
Lemma binary_round_aux_sign (s : bool) (m e : Z) (l : location) :
  (0 <= m)%Z -> has_sign s (binary_round_aux prec emax s m e l).
Proof.
  intros H. unfold binary_round_aux.
  pose proof (shr_fexp_m m e l H) as B1.
  destruct (shr_fexp prec emax m e l) as [mrs1 e1]; simpl in B1.
  pose proof (round_nearest_even_m (shr_m mrs1) (loc_of_shr_record mrs1)
                (proj1 B1)) as B2.
  set (m1 := round_nearest_even (shr_m mrs1) (loc_of_shr_record mrs1)) in *.
  assert (0 <= m1)%Z as H1 by lia.
  pose proof (shr_fexp_m m1 e1 loc_Exact H1) as B3.
  destruct (shr_fexp prec emax m1 e1 loc_Exact) as [mrs2 e2]; simpl in B3.
  destruct (shr_m mrs2); try lia; [ reflexivity | ].
  destruct (e2 <=? emax - prec)%Z; reflexivity.
Qed.

Lemma binary_round_sign (s : bool) (m : positive) (e : Z) :
  has_sign s (binary_round prec emax s m e).
Proof.
  unfold binary_round.
  destruct (shl_align m e _) as [mz ez].
  apply binary_round_aux_sign. lia.
Qed.

Lemma of_decimal_sign (s : bool) (n : N) (k : Z) :
  has_sign s (of_decimal s n k).
Proof.
  unfold of_decimal. destruct n as [ | p ]; [ reflexivity | ].
  destruct (0 <=? k)%Z; [ apply binary_round_sign | ].
  unfold SFdiv.
  destruct (SFdiv_core_binary prec emax (Z.pos p) 0 _ 0) as [[mz ez] lz] eqn:E.
  rewrite xorb_false_r. apply binary_round_aux_sign.
  unfold SFdiv_core_binary in E.
  match type of E with
  | (let '(q, r) := Z.div_eucl ?a ?b in _) = _ =>
      pose proof (Z.div_pos a b) as P; unfold Z.div in P;
      destruct (Z.div_eucl a b) as [q r]
  end.
  injection E as <- _ _. apply P; [ | lia ].
  match goal with
  | |- (0 <= match ?x with _ => _ end)%Z => destruct x
  end; try lia.
  apply Z.shiftl_nonneg. lia.
Qed.

Lemma mul_sign (x : number) (m : positive) (e : Z) :
  has_sign false x -> has_sign false (mul x (S754_finite false m e)).
Proof.
  destruct x as [ sx | sx | | sx mx ex ]; simpl; intros H;
    try contradiction; subst sx; try reflexivity.
  apply binary_round_aux_sign. lia.
Qed.


(** ** [parseFloat] on decimal numerals *)


Lemma is_digit_range (c : char16) :
  is_digit c = true <-> (48 <= c <= 57)%N.
Proof.
  unfold is_digit. rewrite andb_true_iff, !N.leb_le. tauto.
Qed.

Lemma span_digits_spec (s : jsstring) :
  s = fst (span_digits s) ++ snd (span_digits s)
  /\ forallb is_digit (fst (span_digits s)) = true
  /\ match snd (span_digits s) with
     | [] => True
     | c :: _ => is_digit c = false
     end.
Proof.
  induction s as [ | c s (IH1 & IH2 & IH3) ]; simpl; [ auto | ].
  destruct (is_digit c) eqn:D.
  - destruct (span_digits s) as [ds r]; simpl in *.
    rewrite D, IH2. repeat split; auto. now f_equal.
  - simpl. auto.
Qed.

Lemma span_digits_app (ds rest : jsstring) :
  forallb is_digit ds = true ->
  match rest with [] => True | c :: _ => is_digit c = false end ->
  span_digits (ds ++ rest) = (ds, rest).
Proof.
  intros D R. induction ds as [ | c ds IH ]; cbn [app].
  - destruct rest as [ | c r ]; [ reflexivity | ]. cbn [span_digits].
    now rewrite R.
  - cbn [forallb] in D. apply andb_true_iff in D as [C D].
    cbn [span_digits]. now rewrite C, (IH D).
Qed.

Lemma parseFloat_digit_first (d : char16) (rest : jsstring) :
  is_digit d = true ->
  parseFloat (d :: rest)
  = let (ip, r1) := span_digits (d :: rest) in
    match r1 with
    | c :: r2 =>
        if (c =? 46)%N then
          let (fp, r3) := span_digits r2 in
          match ip, fp with
          | [], [] => NaN
          | _, _ => of_decimal false (digits_value (ip ++ fp))
                      (exponent_part r3 - Z.of_nat (length fp))
          end
        else
          match ip with
          | [] => NaN
          | _ => of_decimal false (digits_value ip) (exponent_part r1)
          end
    | [] =>
        match ip with
        | [] => NaN
        | _ => of_decimal false (digits_value ip) 0
        end
    end.
Proof.
  intros D. pose proof (proj1 (is_digit_range d) D) as R.
  unfold parseFloat. cbn [trim_start].
  replace (is_space d) with false
    by (symmetry; unfold is_space;
        repeat (apply orb_false_iff; split);
        try apply andb_false_iff;
        rewrite ?N.leb_gt, ?N.eqb_neq; lia).
  replace (d =? 43)%N with false by (symmetry; apply N.eqb_neq; lia).
  replace (d =? 45)%N with false by (symmetry; apply N.eqb_neq; lia).
  unfold unsigned_decimal.
  replace (is_prefix (lit "Infinity") (d :: rest)) with false
    by (change (lit "Infinity") with (73%N :: lit "nfinity");
        cbn [is_prefix];
        replace (73 =? d)%N with false
          by (symmetry; apply N.eqb_neq; lia); reflexivity).
  reflexivity.
Qed.

(** A run of digits denotes the integer it spells, *)
Lemma parseFloat_integer (d : char16) (ds : jsstring) :
  forallb is_digit (d :: ds) = true ->
  parseFloat (d :: ds) = of_decimal false (digits_value (d :: ds)) 0.
Proof.
  intros D. pose proof D as D'. cbn [forallb] in D'.
  apply andb_true_iff in D' as [D1 _].
  rewrite (parseFloat_digit_first _ _ D1).
  rewrite <- (app_nil_r (d :: ds)) at 1.
  rewrite (span_digits_app _ [] D I). reflexivity.
Qed.

(** and digits after a point count as decimals. *)
Lemma parseFloat_fraction (d : char16) (ds fp : jsstring) :
  forallb is_digit (d :: ds) = true -> forallb is_digit fp = true ->
  parseFloat ((d :: ds) ++ ch "." :: fp)
  = of_decimal false (digits_value ((d :: ds) ++ fp))
      (- Z.of_nat (length fp)).
Proof.
  intros D F. pose proof D as D'. cbn [forallb] in D'.
  apply andb_true_iff in D' as [D1 _].
  change ((d :: ds) ++ ch "." :: fp) with (d :: (ds ++ ch "." :: fp)).
  rewrite (parseFloat_digit_first _ _ D1).
  change (d :: (ds ++ ch "." :: fp)) with ((d :: ds) ++ ch "." :: fp).
  rewrite (span_digits_app _ (ch "." :: fp) D eq_refl).
  change (ch "." =? 46)%N with true. cbv iota.
  rewrite <- (app_nil_r fp) at 1.
  rewrite (span_digits_app _ [] F I). cbn [exponent_part]. reflexivity.
Qed.


(** ** Range *)

Local Open Scope Z_scope.

Lemma digits2_pos_size (p : positive) : digits2_pos p = Pos.size p.
Proof. induction p; simpl; congruence. Qed.

Lemma Zdigits2_le (m D : Z) : 0 <= D -> 0 <= m < 2 ^ D -> Zdigits2 m <= D.
Proof.
  intros HD [H0 H]. destruct m as [ | p | p ]; simpl; try lia.
  rewrite digits2_pos_size.
  assert (Z.log2 (Z.pos p) < D) by (apply Z.log2_lt_pow2; lia).
  assert (Z.pos (Pos.size p) = Z.succ (Z.log2 (Z.pos p))) as ->; [ | lia ].
  destruct p; simpl; lia.
Qed.

Lemma shr_fexp_e (m e : Z) (l : location) :
  snd (shr_fexp prec emax m e l)
  = Z.max e (fexp prec emax (Zdigits2 m + e)).
Proof.
  unfold shr_fexp, shr.
  destruct (fexp prec emax (Zdigits2 m + e) - e) eqn:E; simpl; lia.
Qed.

Lemma fexp_le (x : Z) : fexp prec emax x = Z.max (x - 53) (-1074).
Proof. reflexivity. Qed.

(** Shifting the mantissa right is a division by a power of two,
    rounded down. *)
Lemma shr_1_half (mrs : shr_record) :
  0 <= shr_m mrs -> shr_m (shr_1 mrs) = shr_m mrs / 2.
Proof.
  rewrite <- Z.div2_div. destruct mrs as [m r s]; simpl.
  destruct m as [ | [ p | p | ] | p ]; simpl; intros H; try lia; reflexivity.
Qed.

Lemma iter_shr_1_div (p : positive) (mrs : shr_record) :
  0 <= shr_m mrs ->
  shr_m (iter_pos shr_1 p mrs) = shr_m mrs / 2 ^ Z.pos p.
Proof.
  assert (forall q, 0 < 2 ^ Z.pos q) as P
      by (intros q; apply Z.pow_pos_nonneg; lia).
  revert mrs. induction p as [ p IH | p IH | ]; intros mrs H; simpl iter_pos.
  - pose proof (shr_1_m mrs H) as H1.
    pose proof (iter_shr_1_m p _ (proj1 H1)) as H2.
    rewrite IH, IH, shr_1_half by tauto.
    pose proof (P p).
    rewrite !Z.div_div by lia. f_equal.
    replace (Z.pos p~1) with (Z.pos p + Z.pos p + 1) by lia.
    rewrite !Z.pow_add_r by lia. lia.
  - pose proof (iter_shr_1_m p _ H) as H2.
    rewrite IH, IH by tauto.
    pose proof (P p).
    rewrite !Z.div_div by lia. f_equal.
    replace (Z.pos p~0) with (Z.pos p + Z.pos p) by lia.
    rewrite !Z.pow_add_r by lia. lia.
  - now apply shr_1_half.
Qed.

Lemma shr_fexp_spec (m e : Z) (l : location) :
  0 <= m ->
  let e1 := Z.max e (fexp prec emax (Zdigits2 m + e)) in
  snd (shr_fexp prec emax m e l) = e1
  /\ shr_m (fst (shr_fexp prec emax m e l)) = m / 2 ^ (e1 - e).
Proof.
  intros H e1. split; [ apply shr_fexp_e | ].
  subst e1. unfold shr_fexp, shr.
  destruct (fexp prec emax (Zdigits2 m + e) - e) as [ | p | p ] eqn:E;
    cbn [fst].
  - replace (Z.max _ _ - e) with 0 by lia.
    now rewrite shr_record_of_loc_m, Z.div_1_r.
  - replace (Z.max _ _ - e) with (Z.pos p) by lia.
    rewrite iter_shr_1_div; now rewrite shr_record_of_loc_m.
  - replace (Z.max _ _ - e) with 0 by lia.
    now rewrite shr_record_of_loc_m, Z.div_1_r.
Qed.

Lemma Zdigits2_bound (m c x : Z) :
  0 <= x -> 0 <= m -> 0 < c < 2 ^ 53 -> m <= c * 2 ^ x ->
  Zdigits2 m <= 53 + x.
Proof.
  intros Hx Hm Hc H. apply Zdigits2_le; [ lia | ].
  split; [ lia | ]. rewrite Z.pow_add_r by lia.
  assert (0 < 2 ^ x) by (apply Z.pow_pos_nonneg; lia). nia.
Qed.

(** Rounding to nearest cannot pass a representable bound: a value below
    [c * 2^t], where [c] fits the mantissa and [t] is an exponent of the
    format, is rounded to a finite Number of at most [c * 2^t]. *)
Lemma binary_round_aux_at_most (s : bool) (m e : Z) (l : location) (c t : Z) :
  0 <= m -> e <= t -> -1074 <= t <= 971 -> 0 < c < 2 ^ 53 ->
  m < c * 2 ^ (t - e) ->
  at_most c t (binary_round_aux prec emax s m e l).
Proof.
  intros Hm Het Ht Hc B. unfold binary_round_aux.
  destruct (shr_fexp_spec m e l Hm) as [X1 Y1].
  destruct (shr_fexp prec emax m e l) as [mrs1 e1]; cbn [fst snd] in X1, Y1.
  rewrite <- X1 in Y1.
  pose proof (Zdigits2_bound m c (t - e) ltac:(lia) Hm Hc ltac:(lia)) as D.
  rewrite fexp_le in X1.
  assert (e <= e1 <= t) as He1 by lia.
  assert (0 < 2 ^ (e1 - e)) as P1 by (apply Z.pow_pos_nonneg; lia).
  assert (2 ^ (t - e) = 2 ^ (e1 - e) * 2 ^ (t - e1)) as S1
      by (rewrite <- Z.pow_add_r by lia; f_equal; lia).
  assert (0 <= shr_m mrs1 < c * 2 ^ (t - e1)) as B1.
  { rewrite Y1. split; [ apply Z.div_pos; lia | ].
    apply Z.div_lt_upper_bound; [ lia | ].
    replace (2 ^ (e1 - e) * (c * 2 ^ (t - e1))) with (c * 2 ^ (t - e))
      by (rewrite S1; ring).
    exact B. }
  pose proof (round_nearest_even_m (shr_m mrs1) (loc_of_shr_record mrs1)
                (proj1 B1)) as B2.
  set (m1 := round_nearest_even (shr_m mrs1) (loc_of_shr_record mrs1)) in *.
  assert (0 <= m1) as H1 by lia.
  destruct (shr_fexp_spec m1 e1 loc_Exact H1) as [X2 Y2].
  destruct (shr_fexp prec emax m1 e1 loc_Exact) as [mrs2 e2];
    cbn [fst snd] in X2, Y2.
  rewrite <- X2 in Y2.
  pose proof (Zdigits2_bound m1 c (t - e1) ltac:(lia) H1 Hc ltac:(lia)) as D1.
  rewrite fexp_le in X2.
  assert (e1 <= e2 <= t) as He2 by lia.
  assert (0 < 2 ^ (e2 - e1)) as P2 by (apply Z.pow_pos_nonneg; lia).
  assert (2 ^ (t - e1) = 2 ^ (e2 - e1) * 2 ^ (t - e2)) as S2
      by (rewrite <- Z.pow_add_r by lia; f_equal; lia).
  assert (shr_m mrs2 <= c * 2 ^ (t - e2)) as B3.
  { rewrite Y2. apply Z.div_le_upper_bound; [ lia | ].
    replace (2 ^ (e2 - e1) * (c * 2 ^ (t - e2))) with (c * 2 ^ (t - e1))
      by (rewrite S2; ring).
    lia. }
  pose proof (Z.div_pos m1 (2 ^ (e2 - e1)) H1 P2) as N3.
  destruct (shr_m mrs2) as [ | q | q ] eqn:Q; [ exact I | | lia ].
  replace (e2 <=? emax - prec) with true
    by (symmetry; apply Z.leb_le; unfold emax, prec; lia).
  simpl. split; lia.
Qed.

Lemma iter_xO (m d : positive) :
  Z.pos (Pos.iter xO m d) = Z.pos m * 2 ^ Z.pos d.
Proof.
  apply (Pos.iter_ind positive xO m
           (fun p a => Z.pos a = Z.pos m * 2 ^ Z.pos p)).
  - lia.
  - intros p a H. rewrite Pos2Z.inj_succ, Z.pow_succ_r by lia. lia.
Qed.

Lemma at_most_finite (c t : Z) (x : number) :
  at_most c t x -> is_finite x = true.
Proof. destruct x; simpl; intros H; auto; contradiction. Qed.

Lemma binary_round_at_most (p : positive) (c t : Z) :
  0 <= t <= 971 -> 0 < c < 2 ^ 53 -> Z.pos p < c * 2 ^ t ->
  at_most c t (binary_round prec emax false p 0).
Proof.
  intros Ht Hc B. unfold binary_round.
  pose proof (fexp_le (Z.pos (digits2_pos p) + 0)) as F.
  unfold shl_align.
  destruct (fexp prec emax (Z.pos (digits2_pos p) + 0) - 0) as [ | d | d ] eqn:X.
  - apply binary_round_aux_at_most; try lia. now rewrite Z.sub_0_r.
  - apply binary_round_aux_at_most; try lia. now rewrite Z.sub_0_r.
  - apply binary_round_aux_at_most; try lia.
    unfold shift_pos. rewrite iter_xO.
    replace (t - fexp prec emax (Z.pos (digits2_pos p) + 0))
      with (t + Z.pos d) by lia.
    rewrite Z.pow_add_r by lia.
    assert (0 < 2 ^ Z.pos d) by (apply Z.pow_pos_nonneg; lia).
    nia.
Qed.

Lemma div_at_most (p q : positive) (c t : Z) :
  0 <= t <= 971 -> 0 < c < 2 ^ 53 ->
  Z.pos p < c * 2 ^ t * Z.pos q ->
  at_most c t
    (SFdiv prec emax (S754_finite false p 0) (S754_finite false q 0)).
Proof.
  intros Ht Hc B. unfold SFdiv, SFdiv_core_binary.
  set (e' := Z.min (fexp prec emax (Zdigits2 (Z.pos p) + 0
                                    - (Zdigits2 (Z.pos q) + 0))) (0 - 0)).
  pose proof (fexp_le (Zdigits2 (Z.pos p) + 0 - (Zdigits2 (Z.pos q) + 0))) as F.
  assert (-1074 <= e' <= 0) as He by (subst e'; lia).
  set (m' := match 0 - 0 - e' with
             | 0 => Z.pos p
             | Z.pos _ => Z.shiftl (Z.pos p) (0 - 0 - e')
             | Z.neg _ => 0
             end).
  assert (m' = Z.pos p * 2 ^ (- e')) as Hm'.
  { subst m'. destruct (0 - 0 - e') as [ | s | s ] eqn:S.
    - replace (- e') with 0 by lia. lia.
    - rewrite Z.shiftl_mul_pow2 by lia. do 2 f_equal. lia.
    - lia. }
  clearbody m'.
  assert (0 < 2 ^ (- e')) as P by (apply Z.pow_pos_nonneg; lia).
  assert (0 <= m' / Z.pos q < c * 2 ^ (t - e')) as Q.
  { split; [ apply Z.div_pos; nia | ].
    apply Z.div_lt_upper_bound; [ lia | ].
    replace (t - e') with (t + - e') by lia.
    rewrite Z.pow_add_r by lia. subst m'. nia. }
  unfold Z.div in Q.
  destruct (Z.div_eucl m' (Z.pos q)) as [quot r]. cbn [fst] in Q.
  cbn [xorb].
  apply binary_round_aux_at_most; lia.
Qed.

(** The decimal [n * 10^k] below a representable bound. *)
Lemma of_decimal_at_most (n : N) (k c t : Z) :
  k <= 0 -> 0 <= t <= 971 -> 0 < c < 2 ^ 53 ->
  Z.of_N n < c * 2 ^ t * 10 ^ (- k) ->
  at_most c t (of_decimal false n k).
Proof.
  intros Hk Ht Hc B. unfold of_decimal. destruct n as [ | p ]; [ exact I | ].
  simpl Z.of_N in B.
  destruct (0 <=? k) eqn:K.
  - apply Z.leb_le in K. replace k with 0 in * by lia.
    change (Z.to_pos (10 ^ 0)) with 1%positive. rewrite Pos.mul_1_r.
    apply binary_round_at_most; auto. simpl in B. lia.
  - apply Z.leb_gt in K.
    assert (0 < 10 ^ (- k)) as P by (apply Z.pow_pos_nonneg; lia).
    apply div_at_most; auto. rewrite Z2Pos.id by lia. exact B.
Qed.

(** The product with a positive Number [m * 2^e], when the product of the
    bounds stays below the largest Number [(2^53 - 1) * 2^971]. *)
Lemma mul_at_most (x : number) (m : positive) (e c t : Z) :
  at_most c t x -> 0 < c -> t + e <= 971 -> -1074 <= t + e ->
  c * Z.pos m < (2 ^ 53 - 1) * 2 ^ (971 - (t + e)) ->
  is_finite (mul x (S754_finite false m e)) = true.
Proof.
  intros W Hc Hte Hte' B. destruct x as [ sx | | | sx mx ex ]; simpl in W;
    try contradiction; [ reflexivity | ].
  destruct W as [We Wm]. unfold mul, SFmul.
  apply at_most_finite with (2 ^ 53 - 1) 971.
  apply binary_round_aux_at_most; try lia.
  rewrite Pos2Z.inj_mul.
  replace (971 - (ex + e)) with ((971 - (t + e)) + (t - ex)) by lia.
  rewrite Z.pow_add_r by lia.
  assert (0 < 2 ^ (t - ex)) by (apply Z.pow_pos_nonneg; lia).
  assert (0 < 2 ^ (971 - (t + e))) by (apply Z.pow_pos_nonneg; lia).
  nia.
Qed.

Local Close Scope Z_scope.

End NumberFacts.
Import NumberFacts.

(* ================================================================== *)
(** * The amount of a market value *)
(* ================================================================== *)

Module ValueFacts.

Lemma lang_star_chars (P : char16 -> bool) (r : regex) (w : jsstring) :
  (forall v, lang r v -> forallb P v = true) ->
  lang (Star r) w -> forallb P w = true.
Proof.
  intros Hr H. remember (Star r) as sr eqn:E.
  induction H as [ | | | x c A | | | | | x w1 w2 H1 _ H2 IH | ];
    try discriminate E.
  - destruct x; discriminate A || discriminate E.
  - reflexivity.
  - injection E as ->. rewrite forallb_app, (Hr _ H1), (IH eq_refl).
    reflexivity.
Qed.

Lemma group_chars (v : jsstring) :
  lang (Seq (Chr (ch ".")) (Rep 3 Digit)) v -> forallb dec_char v = true.
Proof.
  cbn [Rep]. intros H. inv_lang. unfold dec_char. cbn.
  repeat match goal with
         | A : is_digit _ = true |- _ => rewrite A; clear A
         | A : N.eqb _ _ = true |- _ => apply N.eqb_eq in A; subst
         end.
  reflexivity.
Qed.

(** An amount is a run of digits and dots that starts with a digit,
    followed or not by a comma and two digits. *)
Lemma amount_shape (w : jsstring) :
  lang amount_re w ->
  exists d body tail,
    w = (d :: body) ++ tail
    /\ is_digit d = true
    /\ forallb dec_char body = true
    /\ (tail = []
        \/ exists a b, tail = [ch ","; a; b]
                       /\ is_digit a = true /\ is_digit b = true).
Proof.
  unfold amount_re. cbn [Seqs UpTo Rep]. unfold Opt. intros H.
  inversion H as [ | | | r c A | r1 r2 w1 w23 H1 H23 | | | | | ]; subst;
    [ discriminate A | ].
  inversion H23 as [ | | | r c A | r1 r2 w2 w3 H2 H3 | | | | | ]; subst;
    [ discriminate A | ].
  clear H H23.
  apply (lang_star_chars dec_char) in H2; [ | exact group_chars ].
  assert (exists d v, w1 = d :: v /\ is_digit d = true
                      /\ forallb dec_char v = true) as (d & v & -> & D & V).
  { inv_lang; eexists _, _; (split; [ reflexivity | ]); split; auto;
      unfold dec_char; cbn;
      repeat match goal with
             | A : is_digit _ = true |- _ => rewrite A; clear A
             end; reflexivity. }
  clear H1.
  exists d, (v ++ w2), w3. repeat split.
  - cbn. now rewrite <- app_assoc.
  - exact D.
  - now rewrite forallb_app, V, H2.
  - inv_lang; [ right | left; reflexivity ].
    repeat match goal with
           | A : N.eqb _ _ = true |- _ => apply N.eqb_eq in A; subst
           end.
    eexists _, _. repeat split; eauto.
Qed.

Lemma digit_not_sep (c : char16) :
  is_digit c = true -> (c =? ch ".")%N = false /\ (c =? ch ",")%N = false.
Proof.
  intros D. apply is_digit_range in D. unfold ch. cbn.
  split; apply N.eqb_neq; lia.
Qed.

Lemma raw_value_digits (body tail : jsstring) :
  forallb dec_char body = true ->
  raw_value (body ++ tail) = filter is_digit body ++ raw_value tail.
Proof.
  unfold raw_value, remove_all.
  induction body as [ | c body IH ]; intros H; [ reflexivity | ].
  cbn [forallb] in H. apply andb_true_iff in H as [C H].
  unfold dec_char in C. apply orb_true_iff in C as [C | C].
  - destruct (digit_not_sep c C) as [N1 N2].
    cbn [app filter]. rewrite N1, C. cbn [negb replace_first].
    now rewrite N2, (IH H).
  - apply N.eqb_eq in C; subst c.
    cbn [app filter]. change (46 =? ch ".")%N with true.
    change (is_digit 46%N) with false. cbn [negb]. exact (IH H).
Qed.

Lemma filter_digits_id (ds : jsstring) :
  forallb is_digit ds = true -> filter is_digit ds = ds.
Proof.
  induction ds as [ | c ds IH ]; intros H; [ reflexivity | ].
  cbn [forallb] in H. apply andb_true_iff in H as [C H].
  cbn [filter]. now rewrite C, (IH H).
Qed.

Lemma filter_digits_digits (s : jsstring) :
  forallb is_digit (filter is_digit s) = true.
Proof.
  induction s as [ | c s IH ]; [ reflexivity | ]. cbn [filter].
  destruct (is_digit c) eqn:C; [ | exact IH ].
  cbn [forallb]. now rewrite C, IH.
Qed.

Lemma no_comma (body : jsstring) :
  forallb dec_char body = true ->
  @existsb char16 (N.eqb (ch ",")) body = false.
Proof.
  induction body as [ | c body IH ]; intros H; [ reflexivity | ].
  cbn [forallb] in H. apply andb_true_iff in H as [C H].
  cbn [existsb]. rewrite (IH H), orb_false_r.
  unfold dec_char in C. apply orb_true_iff in C as [C | C].
  - apply is_digit_range in C. apply N.eqb_neq. unfold ch. cbn. lia.
  - apply N.eqb_eq in C. now subst c.
Qed.

(** The Number an amount is read as: the integer its digits spell, the
    dots dropped, divided by a hundred when a comma introduces two
    decimals. *)
Lemma parse_amount (w : jsstring) :
  lang amount_re w ->
  parseFloat (raw_value w)
  = of_decimal false (amount_digits w) (amount_scale w).
Proof.
  intros H. apply amount_shape in H as (d & body & tail & -> & D & B & T).
  assert (forallb dec_char (d :: body) = true) as B'
      by (cbn [forallb]; unfold dec_char at 1; now rewrite D, B).
  rewrite (raw_value_digits _ tail B').
  unfold amount_digits, amount_scale.
  rewrite filter_app, existsb_app, (no_comma _ B'). cbn [orb].
  pose proof (filter_digits_digits body) as FD.
  cbn [filter]. rewrite D.
  assert (forallb is_digit (d :: filter is_digit body) = true) as FD'
      by (cbn [forallb]; now rewrite D, FD).
  destruct T as [-> | (a & b & -> & A & Bd)].
  - cbn [filter existsb]. change (raw_value []) with (@nil char16).
    rewrite !app_nil_r. now apply parseFloat_integer.
  - assert (raw_value [ch ","; a; b] = [ch "."; a; b]) as ->.
    { unfold raw_value, remove_all. cbn [filter].
      destruct (digit_not_sep a A) as [-> _].
      destruct (digit_not_sep b Bd) as [-> _]. reflexivity. }
    cbn [filter existsb]. rewrite A, Bd.
    change (is_digit (ch ",")) with false.
    change (ch "," =? ch ",")%N with true. cbn [orb].
    apply (parseFloat_fraction d (filter is_digit body) [a; b] FD').
    cbn [forallb]. now rewrite A, Bd.
Qed.

End ValueFacts.
Import ValueFacts.

(* ================================================================== *)
(** * Queries on the tree *)
(* ================================================================== *)

Module DomFacts.

Lemma str_eqb_eq (a b : jsstring) : str_eqb a b = true <-> a = b.
Proof.
  revert b. induction a as [ | x a IH ]; intros [ | y b ]; simpl;
    try (split; [ discriminate | discriminate ]); [ tauto | ].
  rewrite andb_true_iff, N.eqb_eq, IH.
  split; [ intros [-> ->]; reflexivity | intros [= -> ->]; auto ].
Qed.

(** Induction on a tree whose children are again trees. *)
Lemma node_induction (P : node -> Prop) :
  (forall d, P (Text d)) ->
  (forall nm at_ ch, Forall P ch -> P (Element nm at_ ch)) ->
  forall n, P n.
Proof.
  intros HT HE.
  fix IH 1. intros [ d | nm at_ ch ]; [ apply HT | apply HE ].
  induction ch as [ | c ch IHch ]; constructor; [ apply IH | exact IHch ].
Qed.

Lemma matches_by_class (c : string) (t : tag) (ancestors : list tag) :
  matches [[by_class c]] t ancestors = has_class (lit c) t.
Proof.
  unfold matches, matches_complex, matches_compound. simpl.
  now rewrite !andb_true_r, orb_false_r.
Qed.

Lemma select_by_class (c : string) (d n : node) :
  forall ancestors,
    In d (select [[by_class c]] ancestors n)
    <-> (d = n \/ descendant d n) /\ carries_class c d.
Proof.
  induction n as [ t | nm at_ ch IH ] using node_induction;
    intros ancestors.
  - simpl. split; [ contradiction | ].
    intros [[-> | H] C]; [ exact C | inversion H ].
  - cbn [select]. rewrite in_app_iff, in_flat_map, matches_by_class.
    split.
    + intros [H | (x & Hx & H)].
      * destruct (has_class (lit c) (nm, at_)) eqn:E; [ | contradiction ].
        destruct H as [<- | []]. split; [ now left | exact E ].
      * rewrite Forall_forall in IH. apply (IH x Hx) in H as [[-> | H] C].
        -- split; [ right; now constructor | exact C ].
        -- split; [ right; now apply descendant_deeper with x | exact C ].
    + intros [[-> | H] C].
      * left. simpl in C. rewrite C. now left.
      * right. rewrite Forall_forall in IH.
        inversion H as [ ? ? ? I | ? ? ? x I D ]; subst.
        -- exists d. split; [ exact I | ]. apply (IH d I). auto.
        -- exists x. split; [ exact I | ]. apply (IH x I). auto.
Qed.

(** A class query on a row finds something exactly when an element inside
    the row carries the class. *)
Lemma find_by_class (c : string) (row : node) :
  Nat.ltb 0 (length (find [[by_class c]] (jq row))) = true
  <-> marked c row.
Proof.
  unfold find, jq, marked. cbn [flat_map]. rewrite app_nil_r.
  rewrite Nat.ltb_lt. split.
  - destruct (find1 [[by_class c]] row) as [ | d l ] eqn:E;
      [ simpl; lia | ].
    intros _. exists d.
    destruct row as [ t | nm at_ ch ]; [ discriminate E | ].
    assert (In d (find1 [[by_class c]] (Element nm at_ ch))) as I
        by (rewrite E; now left).
    cbn [find1] in I. apply in_flat_map in I as (x & Hx & I).
    apply select_by_class in I as [[-> | D] C]; split; auto.
    + now constructor.
    + now apply descendant_deeper with x.
  - intros (d & D & C).
    assert (In d (find1 [[by_class c]] row)) as I.
    { inversion D as [ ? ? ? I | ? ? ? x I D' ]; subst; cbn [find1];
        apply in_flat_map.
      - exists d. split; [ exact I | ]. apply select_by_class. auto.
      - exists x. split; [ exact I | ]. apply select_by_class. auto. }
    destruct (find1 [[by_class c]] row); [ contradiction | simpl; lia ].
Qed.

(** The loop that collects the nationalities is a filter. *)
Lemma nationality_loop (imgs : list node) (acc : list jsstring) :
  fold_left
    (fun nationalities i =>
       let nationality := opt_or_else (attr (lit "title") (jq i)) NA in
       if negb (str_eqb nationality NA)
       then nationalities ++ [nationality]
       else nationalities) imgs acc
  = acc ++ filter (fun t => negb (str_eqb t NA)) (map resolved_title imgs).
Proof.
  revert acc. induction imgs as [ | i imgs IH ]; intros acc;
    cbn [fold_left map filter].
  - now rewrite app_nil_r.
  - rewrite IH. cbv zeta.
    change (opt_or_else (attr (lit "title") (jq i)) NA)
      with (resolved_title i).
    destruct (negb (str_eqb (resolved_title i) NA)); [ | reflexivity ].
    now rewrite <- app_assoc.
Qed.

Lemma nationality_of_spec (row : node) :
  nationality_of row
  = match flag_titles (eq 2 (find zentriert (jq row))) with
    | [] => [NA]
    | ts => ts
    end.
Proof.
  unfold nationality_of. rewrite nationality_loop. cbn [app].
  fold (flag_titles (eq 2 (find zentriert (jq row)))).
  now destruct (flag_titles _).
Qed.

End DomFacts.
Import DomFacts.

(* ================================================================== *)
(** * The market value *)
(* ================================================================== *)

Module MarketValueFacts.

Lemma has_sign_nonneg (x : number) : has_sign false x -> is_nonneg x = true.
Proof. destruct x; simpl; intros H; subst; auto; contradiction. Qed.

Lemma of_Z_million : exists m e, of_Z 1000000 = S754_finite false m e
                                 /\ (Z.pos m < 2 ^ 53)%Z /\ (e <= -33)%Z.
Proof.
  exists 8589934592000000%positive, (-33)%Z.
  split; [ reflexivity | split; [ reflexivity | lia ] ].
Qed.

Lemma of_Z_thousand : exists m e, of_Z 1000 = S754_finite false m e
                                  /\ (Z.pos m < 2 ^ 53)%Z /\ (e <= -33)%Z.
Proof.
  exists 8796093022208000%positive, (-43)%Z.
  split; [ reflexivity | split; [ reflexivity | lia ] ].
Qed.

Lemma of_Z_multiplier (unit : jsstring) :
  exists m e, of_Z (multiplier unit) = S754_finite false m e
              /\ (Z.pos m < 2 ^ 53)%Z /\ (e <= -33)%Z.
Proof.
  unfold multiplier. destruct (str_eqb unit (lit "mi."));
    [ apply of_Z_million | apply of_Z_thousand ].
Qed.

(** What the function returns when the pattern matches. *)
Lemma market_value_match (cell : jsstring) (m : captures) :
  str_match value_re cell = Some m ->
  market_value cell
  = {| value := mul (parseFloat (raw_value (group 1 m)))
                    (of_Z (multiplier (group 2 m)));
       currency := group 3 m |}.
Proof.
  intros H. unfold market_value.
  destruct cell as [ | c cell ]; [ discriminate H | ].
  cbn [or_else].
  destruct (str_eqb (c :: cell) NA) eqn:E.
  - apply str_eqb_eq in E. rewrite E in H. discriminate H.
  - cbn [negb]. rewrite H. unfold multiplier, raw_value.
    now destruct (str_eqb (group 2 m) (lit "mi.")).
Qed.

(** What it returns when the pattern does not. *)
Lemma market_value_no_match (cell : jsstring) :
  str_match value_re cell = None -> market_value cell = no_value.
Proof.
  intros H. unfold market_value.
  destruct cell as [ | c cell ]; [ reflexivity | ].
  cbn [or_else]. rewrite H. now destruct (negb _).
Qed.

Lemma parsed_amount_sign (t : jsstring) (m : captures) :
  str_match value_re t = Some m ->
  has_sign false (parseFloat (raw_value (group 1 m))).
Proof.
  intros H. apply value_re_groups in H as (A & _ & _).
  rewrite (parse_amount _ A). apply of_decimal_sign.
Qed.

Lemma market_value_nonneg (cell : jsstring) :
  is_nonneg (value (market_value cell)) = true.
Proof.
  destruct (str_match value_re cell) as [ m | ] eqn:H.
  - rewrite (market_value_match _ _ H). cbn [value].
    destruct (of_Z_multiplier (group 2 m)) as (mm & e & -> & _).
    apply has_sign_nonneg, mul_sign. now apply parsed_amount_sign with cell.
  - now rewrite (market_value_no_match _ H).
Qed.

(** The value, with the amount read as the decimal it spells. *)
Lemma market_value_decimal (cell : jsstring) (m : captures) :
  str_match value_re cell = Some m ->
  market_value cell
  = {| value := mul (of_decimal false (amount_digits (group 1 m))
                                (amount_scale (group 1 m)))
                    (of_Z (multiplier (group 2 m)));
       currency := group 3 m |}.
Proof.
  intros H. rewrite (market_value_match _ _ H).
  apply value_re_groups in H as (A & _ & _). now rewrite (parse_amount _ A).
Qed.

Lemma amount_scale_cases (amount : jsstring) :
  amount_scale amount = 0%Z \/ amount_scale amount = (-2)%Z.
Proof. unfold amount_scale. destruct (existsb _ _); auto. Qed.

Local Open Scope Z_scope.

(** The largest Numbers whose product with the multiplier is still a
    Number, from below. *)
Lemma million_bound : 1797 * 10 ^ 299 <= 4722366482869644 * 2 ^ 952.
Proof. apply Z.leb_le. vm_compute. reflexivity. Qed.

Lemma thousand_bound : 1797 * 10 ^ 302 <= 4611686018427387 * 2 ^ 962.
Proof. apply Z.leb_le. vm_compute. reflexivity. Qed.

Lemma decimal_below (n : N) (k x b u : Z) :
  k <= 0 -> 0 < u -> x <= b ->
  Z.of_N n * u < x * u * 10 ^ (- k) ->
  Z.of_N n < b * 10 ^ (- k).
Proof.
  intros Hk Hu Hx B.
  assert (0 < 10 ^ (- k)) as P by (apply Z.pow_pos_nonneg; lia).
  assert (x * 10 ^ (- k) <= b * 10 ^ (- k)) as L
      by (apply Z.mul_le_mono_nonneg_r; lia).
  nia.
Qed.

Lemma times_million_finite (n : N) (k : Z) :
  k <= 0 -> Z.of_N n * 1000000 < finite_below k ->
  is_finite (mul (of_decimal false n k) (of_Z 1000000)) = true.
Proof.
  intros Hk B.
  change (of_Z 1000000) with (S754_finite false 8589934592000000 (-33)).
  apply mul_at_most with 4722366482869644 952;
    [ | lia | lia | lia | apply Z.ltb_lt; vm_compute; reflexivity ].
  apply of_decimal_at_most;
    [ lia | lia | split; [ lia | reflexivity ] | ].
  apply decimal_below with (1797 * 10 ^ 299) 1000000;
    [ lia | lia | exact million_bound | ].
  unfold finite_below in B.
  replace (305 - k) with (299 + 6 + - k) in B by lia.
  rewrite !Z.pow_add_r in B by lia. change (10 ^ 6) with 1000000 in B.
  lia.
Qed.

Lemma times_thousand_finite (n : N) (k : Z) :
  k <= 0 -> Z.of_N n * 1000 < finite_below k ->
  is_finite (mul (of_decimal false n k) (of_Z 1000)) = true.
Proof.
  intros Hk B.
  change (of_Z 1000) with (S754_finite false 8796093022208000 (-43)).
  apply mul_at_most with 4611686018427387 962;
    [ | lia | lia | lia | apply Z.ltb_lt; vm_compute; reflexivity ].
  apply of_decimal_at_most;
    [ lia | lia | split; [ lia | reflexivity ] | ].
  apply decimal_below with (1797 * 10 ^ 302) 1000;
    [ lia | lia | exact thousand_bound | ].
  unfold finite_below in B.
  replace (305 - k) with (302 + 3 + - k) in B by lia.
  rewrite !Z.pow_add_r in B by lia. change (10 ^ 3) with 1000 in B.
  lia.
Qed.

(** The value is finite as long as the amount times the multiplier stays
    below 1.797 * 10^308. *)
Lemma market_value_finite (cell : jsstring) (m : captures) :
  str_match value_re cell = Some m ->
  Z.of_N (amount_digits (group 1 m)) * multiplier (group 2 m)
  < finite_below (amount_scale (group 1 m)) ->
  is_finite (value (market_value cell)) = true.
Proof.
  intros H B. rewrite (market_value_decimal _ _ H). cbn [value].
  pose proof (amount_scale_cases (group 1 m)) as K.
  unfold multiplier in *.
  destruct (str_eqb (group 2 m) (lit "mi."));
    [ apply times_million_finite | apply times_thousand_finite ];
    solve [ lia | exact B ].
Qed.

Local Close Scope Z_scope.

End MarketValueFacts.
Import MarketValueFacts.

(* ================================================================== *)
(** * The extraction of a row and the call *)
(* ================================================================== *)

Module ScraperFacts.

Lemma playerData_inv (row : node) (p : Player) :
  playerData row = Ok p ->
  exists i d a,
    id_of row = Ok i /\ dateOfBirth_of row = Ok d /\ age_of row = Ok a
    /\ p = player_of row i d a.
Proof.
  unfold playerData, rbind.
  destruct (id_of row) as [ i | ]; [ | discriminate ].
  destruct (dateOfBirth_of row) as [ d | ]; [ | discriminate ].
  destruct (age_of row) as [ a | ]; [ | discriminate ].
  intros [= <-]. exists i, d, a. auto.
Qed.

Lemma playerData_dated (row : node) (href : jsstring) :
  attr (lit "href") (find hauptlink_a (jq row)) = Some href ->
  is_dob_text (cell_text zentriert 1 row) = true ->
  playerData row
  = Ok (player_of row
          (opt_or_else (nth_error (split (lit "spieler/") href) 1) NA)
          (firstn 10 (cell_text zentriert 1 row))
          (firstn 2 (skipn 12 (cell_text zentriert 1 row)))).
Proof.
  intros H D. unfold playerData, id_of, dateOfBirth_of, age_of.
  rewrite H, dob_re_spec, D. reflexivity.
Qed.

Lemma playerData_undated (row : node) :
  is_dob_text (cell_text zentriert 1 row) = false ->
  exists e, playerData row = Throw e.
Proof.
  intros D. unfold playerData, dateOfBirth_of.
  rewrite dob_re_spec, D.
  destruct (id_of row) as [ i | e ]; simpl; eauto.
Qed.

Lemma each_throws (rows : selection) (row : node) (e : error) :
  In row rows -> playerData row = Throw e ->
  forall players, exists e', each rows players = Throw e'.
Proof.
  induction rows as [ | r rows IH ]; intros I T players; [ contradiction | ].
  cbn [each]. destruct I as [-> | I].
  - rewrite T. simpl. eauto.
  - destruct (playerData r) as [ p | e' ]; simpl; eauto.
Qed.

(** The three steps of the [try] block and the [catch] that follows. *)
Lemma getClubSquad_run (cheerio_load : jsstring -> result (list node))
      (axios_get : jsstring -> result jsstring) (id_clube : jsstring)
      (log : console) :
  getClubSquad cheerio_load axios_get id_clube log
  = match axios_get (squad_url id_clube) with
    | Throw e => (Ok [], log ++ [e])
    | Ok data =>
        match cheerio_load data with
        | Throw e => (Ok [], log ++ [e])
        | Ok doc =>
            match each (query rows_sel doc) [] with
            | Throw e => (Ok [], log ++ [e])
            | Ok players => (Ok players, log)
            end
        end
    end.
Proof.
  unfold getClubSquad, try_catch, bind, lift, ret, console_error.
  destruct (axios_get (squad_url id_clube)) as [ data | e ]; [ | reflexivity ].
  destruct (cheerio_load data) as [ doc | e ]; [ | reflexivity ].
  destruct (each (query rows_sel doc) []); reflexivity.
Qed.

(** Without a primary link, or without an href on it, the second property
    of the object literal throws. *)
Lemma playerData_unlinked (row : node) :
  attr (lit "href") (find hauptlink_a (jq row)) = None ->
  playerData row = Throw no_split.
Proof.
  intros H. unfold playerData, id_of. now rewrite H.
Qed.

Lemma cell_text_missing (sel : selector) (i : nat) (row : node) :
  eq i (find sel (jq row)) = [] -> cell_text sel i row = [].
Proof. unfold cell_text. now intros ->. Qed.

Lemma eq_0_missing (sel : selector) (row : node) :
  find sel (jq row) = [] -> eq 0 (find sel (jq row)) = [].
Proof. now intros ->. Qed.

End ScraperFacts.
Import ScraperFacts.

Module CallFacts.

(** The loop returns its accumulator followed by one player per row, in
    the order of the rows. *)
Lemma each_ok (rows : selection) :
  forall players result,
    each rows players = Ok result ->
    exists extracted,
      result = players ++ extracted
      /\ Forall2 (fun row p => playerData row = Ok p) rows extracted.
Proof.
  induction rows as [ | row rows IH ]; intros players result H.
  - injection H as <-. exists []. now rewrite app_nil_r.
  - cbn [each] in H. destruct (playerData row) as [ p | e ] eqn:P;
      [ | discriminate H ].
    cbn [rbind] in H. apply IH in H as (extracted & -> & F).
    exists (p :: extracted). rewrite <- app_assoc. split; [ reflexivity | ].
    now constructor.
Qed.

(** The loop stops at the first row that throws. *)
Lemma each_first_failure (good : selection) (bad : node) (rest : selection)
      (e : error) :
  forallb extracts good = true ->
  playerData bad = Throw e ->
  forall players, each (good ++ bad :: rest) players = Throw e.
Proof.
  intros G B. induction good as [ | row good IH ]; intros players.
  - cbn [app each]. now rewrite B.
  - cbn [forallb] in G. apply andb_true_iff in G as [R G].
    cbn [app each]. unfold extracts in R.
    destruct (playerData row) as [ p | ]; [ | discriminate R ].
    cbn [rbind]. now apply IH.
Qed.

(** The two errors the object literal can throw. *)
Lemma playerData_errors (row : node) (e : error) :
  playerData row = Throw e -> e = no_split \/ e = no_match.
Proof.
  unfold playerData, id_of, dateOfBirth_of, age_of.
  destruct (attr _ _); [ | intros [= <-]; now left ].
  cbn [rbind].
  destruct (str_match dob_re _); cbn [rbind]; intros [= <-]. now right.
Qed.

End CallFacts.
Import CallFacts.

Module FieldFacts.

(** A match of a pattern without groups binds, as group 0, a word of the
    pattern that occurs in the string. *)
Lemma str_match_word (r : regex) (s : jsstring) (m : captures) :
  groupfree r = true ->
  str_match r s = Some m ->
  exists pre w post,
    s = pre ++ w ++ post /\ m = [(0, w)] /\ lang r w.
Proof.
  intros G H. unfold str_match in H.
  apply search_found in H as (pre & s0 & -> & H).
  unfold match_here in H.
  apply rmatch_sound in H as (w & post & -> & L & H); [ | exact G ].
  injection H as <-. rewrite firstn_consumed.
  exists pre, w, post. auto.
Qed.

Lemma height_word (w : jsstring) : lang height_re w -> is_height w = true.
Proof.
  unfold height_re. cbn [Seqs Rep]. intros H. inv_lang.
  cbn. repeat match goal with
              | A : is_digit _ = true |- _ => rewrite A; clear A
              | A : N.eqb _ _ = true |- _ => rewrite A; clear A
              end.
  reflexivity.
Qed.

Lemma digits_word (w : jsstring) :
  lang (Plus Digit) w -> w <> [] /\ forallb is_digit w = true.
Proof.
  unfold Plus. intros H.
  inversion H as [ | | | r c A | r1 r2 w1 w2 H1 H2 | | | | | ]; subst;
    [ discriminate A | ].
  inversion H1 as [ | | | r c A | | | | | | ]; subst.
  apply (lang_star_chars is_digit) in H2.
  - cbn in A. cbn. rewrite A, H2. split; [ discriminate | reflexivity ].
  - intros v V. inversion V as [ | | | r d B | | | | | | ]; subst.
    cbn in B. cbn. now rewrite B.
Qed.

Lemma club_id_numeric (href : option jsstring) : numeric_or_na (club_id href).
Proof.
  unfold club_id. destruct href as [ h | ]; [ | now left ].
  destruct (str_match verein_re h) as [ m | ] eqn:H; [ | now left ].
  apply verein_re_capture in H as (w & C & L).
  unfold group. rewrite C. right. now apply digits_word.
Qed.

Lemma or_else_nonempty (s d : jsstring) : d <> [] -> or_else s d <> [].
Proof. destruct s; simpl; [ auto | discriminate ]. Qed.

Lemma opt_or_else_nonempty (v : option jsstring) (d : jsstring) :
  d <> [] -> opt_or_else v d <> [].
Proof. destruct v; simpl; [ apply or_else_nonempty | auto ]. Qed.

Lemma NA_nonempty : NA <> [].
Proof. discriminate. Qed.

Lemma height_of_shape (row : node) :
  height_of row = NA
  \/ (is_height (height_of row) = true
      /\ exists pre post,
           cell_text zentriert 3 row = pre ++ height_of row ++ post).
Proof.
  unfold height_of.
  destruct (str_match height_re (cell_text zentriert 3 row)) as [ m | ] eqn:H;
    [ | now left ].
  apply str_match_word in H as (pre & w & post & E & -> & L);
    [ | reflexivity ].
  apply height_word in L. right.
  change (option_map (group 0) (Some [(0, w)])) with (Some w).
  assert (opt_or_else (Some w) NA = w) as ->
      by (destruct w; [ discriminate L | reflexivity ]).
  split; [ exact L | eauto ].
Qed.

Lemma market_value_currency (cell : jsstring) :
  (currency (market_value cell) = [euro]
   \/ currency (market_value cell) = [ch "$"]
   \/ currency (market_value cell) = [pound]
   \/ currency (market_value cell) = NA)
  /\ (currency (market_value cell) = NA
      <-> str_match value_re cell = None).
Proof.
  destruct (str_match value_re cell) as [ m | ] eqn:H.
  - rewrite (market_value_match _ _ H). cbn [currency].
    apply value_re_groups in H as (_ & _ & C).
    apply currency_cases in C as [-> | [-> | ->]];
      (split; [ auto | split; discriminate ]).
  - rewrite (market_value_no_match _ H). cbn. split; [ auto | tauto ].
Qed.

Lemma birth_cell_fields (row : node) (d a : jsstring) :
  dateOfBirth_of row = Ok d -> age_of row = Ok a ->
  cell_text zentriert 1 row = d ++ lit " (" ++ a ++ lit ")"
  /\ length d = 10 /\ length a = 2 /\ forallb is_digit a = true.
Proof.
  intros D A.
  unfold dateOfBirth_of, age_of in *. rewrite dob_re_spec in *.
  destruct (is_dob_text (cell_text zentriert 1 row)) eqn:T;
    [ | discriminate D ].
  injection D as <-. injection A as <-.
  cbn [group capture Nat.eqb].
  unfold is_dob_text in T.
  destruct (cell_text zentriert 1 row) as [ | c0 s ]; [ discriminate T | ].
  do 14 (destruct s as [ | ?c s ]; [ discriminate T | ]).
  destruct s; [ | discriminate T ].
  apply andb_true_iff in T as [D C].
  cbn [forallb] in D. cbn [str_eqb lit map list_ascii_of_string] in C.
  repeat match goal with
         | H : _ && _ = true |- _ => apply andb_true_iff in H as [? ?]
         | H : N.eqb _ _ = true |- _ => apply N.eqb_eq in H; subst
         end.
  cbn. repeat split;
    repeat match goal with
           | H : is_digit _ = true |- _ => rewrite H; clear H
           end; reflexivity.
Qed.

End FieldFacts.
Import FieldFacts.

Module StringFacts.

(** ** [trim] *)

Lemma trim_start_split (s : jsstring) :
  exists sp, s = sp ++ trim_start s.
Proof.
  induction s as [ | c s (sp & IH) ]; [ now exists [] | ].
  cbn [trim_start]. destruct (is_space c).
  - exists (c :: sp). cbn. now f_equal.
  - now exists [].
Qed.

Lemma trim_start_clean (s : jsstring) : clean_start (trim_start s).
Proof.
  induction s as [ | c s IH ]; [ exact I | ].
  cbn [trim_start]. destruct (is_space c) eqn:E; [ exact IH | exact E ].
Qed.

Lemma clean_start_app (s t : jsstring) :
  s <> [] -> clean_start (s ++ t) -> clean_start s.
Proof. destruct s; [ contradiction | auto ]. Qed.

(** What [trim] returns has no white space at either end. *)
Lemma trim_trimmed (s : jsstring) : trimmed (trim s).
Proof.
  unfold trimmed, trim, trim_end. rewrite rev_involutive.
  split; [ | apply trim_start_clean ].
  destruct (trim_start_split (rev (trim_start s))) as (sp & E).
  destruct (trim_start (rev (trim_start s))) as [ | c u ] eqn:U;
    [ exact I | ].
  apply (clean_start_app _ (rev sp)).
  - intros X. apply (f_equal (@length _)) in X.
    rewrite length_rev in X. discriminate X.
  - rewrite <- rev_app_distr, <- E, rev_involutive.
    apply trim_start_clean.
Qed.

Lemma trimmed_or_NA (s : jsstring) : trimmed (or_else (trim s) NA).
Proof.
  pose proof (trim_trimmed s) as T.
  destruct (trim s); [ | exact T ].
  split; cbn; reflexivity.
Qed.

Lemma trimmed_opt_or_NA (v : option jsstring) :
  trimmed (opt_or_else (option_map trim v) NA).
Proof.
  destruct v as [ s | ]; [ apply trimmed_or_NA | split; cbn; reflexivity ].
Qed.

(** ** [split] *)

Lemma split_go_skip (sep : jsstring) (s : jsstring) :
  forall k cur, split_go sep k cur s = split_go sep 0 cur (skipn k s).
Proof.
  induction s as [ | c s IH ]; intros k cur.
  - now destruct k.
  - destruct k as [ | k ]; [ reflexivity | ].
    cbn [split_go skipn]. apply IH.
Qed.

(** [split] cuts at the first occurrence of the separator and goes on
    after it. *)
Lemma split_go_index (sep : jsstring) :
  sep <> [] ->
  forall s cur,
    split_go sep 0 cur s
    = match index_of sep s with
      | None => [rev cur ++ s]
      | Some n =>
          (rev cur ++ firstn n s)
            :: split_go sep 0 [] (skipn (n + length sep) s)
      end.
Proof.
  intros NE. destruct sep as [ | x sep ]; [ contradiction | ].
  induction s as [ | c s IH ]; intros cur.
  - cbn. now rewrite app_nil_r.
  - cbn [split_go index_of].
    destruct (is_prefix (x :: sep) (c :: s)) eqn:P.
    + cbn [length Nat.sub Nat.add skipn firstn].
      rewrite Nat.sub_0_r, app_nil_r. f_equal. apply split_go_skip.
    + rewrite IH. destruct (index_of (x :: sep) s) as [ n | ];
        cbn [option_map rev firstn Nat.add skipn];
        now rewrite <- !app_assoc.
Qed.

Lemma split_second (sep s : jsstring) :
  sep <> [] -> nth_error (split sep s) 1 = after_first sep s.
Proof.
  intros NE. unfold split, after_first.
  rewrite (split_go_index sep NE).
  destruct (index_of sep s) as [ n | ]; [ | reflexivity ].
  cbn [nth_error]. rewrite (split_go_index sep NE).
  now destruct (index_of sep _).
Qed.

End StringFacts.
Import StringFacts.

Module SelectFacts.

(** ** Paths *)

Lemma path_nil (d n : node) : path [] d n -> d = n.
Proof.
  intros H. inversion H as [ | nm at_ ch c up d' I P E ]; [ reflexivity | ].
  now destruct up.
Qed.

Lemma path_last (u : list tag) (a : tag) (d n : node) :
  path (u ++ [a]) d n ->
  exists ch c, n = Element (fst a) (snd a) ch /\ In c ch /\ path u d c.
Proof.
  intros H. inversion H as [ E | nm at_ ch c up d' I P E ].
  - now destruct u.
  - apply app_inj_tail in E as [-> <-]. subst. exists ch, c. auto.
Qed.

Lemma path_app (u1 u2 : list tag) (d m n : node) :
  path u1 d m -> path u2 m n -> path (u1 ++ u2) d n.
Proof.
  intros P1 P2. induction P2 as [ | nm at_ ch c up m I P IH ].
  - now rewrite app_nil_r.
  - rewrite app_assoc. apply path_down with c; auto.
Qed.

Lemma path_split (up : list tag) (d n : node) :
  path up d n ->
  forall u1 u2, up = u1 ++ u2 -> exists m, path u1 d m /\ path u2 m n.
Proof.
  induction 1 as [ d | nm at_ ch c up d I P IH ]; intros u1 u2 E.
  - symmetry in E. apply app_eq_nil in E as [-> ->].
    exists d. split; constructor.
  - destruct u2 as [ | x u2 ] using rev_ind.
    + rewrite app_nil_r in E. subst u1.
      exists (Element nm at_ ch). split; [ | constructor ].
      now apply path_down with c.
    + clear IHu2. rewrite app_assoc in E.
      apply app_inj_tail in E as [-> <-].
      destruct (IH u1 u2 eq_refl) as (m & P1 & P2).
      exists m. split; [ exact P1 | now apply path_down with c ].
Qed.

Lemma path_descendant (up : list tag) (d n : node) :
  path up d n -> up <> [] -> descendant d n.
Proof.
  induction 1 as [ d | nm at_ ch c up d I P IH ]; intros NE;
    [ contradiction | ].
  destruct (Nat.eq_dec (length up) 0) as [Z | Z].
  - apply length_zero_iff_nil in Z. subst up.
    apply path_nil in P. subst c. now constructor.
  - apply descendant_deeper with c; [ exact I | ].
    apply IH. intros ->. now apply Z.
Qed.

Lemma descendant_path (d n : node) :
  descendant d n ->
  exists up nm at_ ch,
    n = Element nm at_ ch /\ path (up ++ [(nm, at_)]) d n.
Proof.
  induction 1 as [ nm at_ ch I | nm at_ ch c I D (up & nm' & at' & ch' & E & P) ].
  - exists [], nm, at_, ch. split; [ reflexivity | ].
    apply path_down with d; [ exact I | constructor ].
  - exists (up ++ [(nm', at')]), nm, at_, ch. split; [ reflexivity | ].
    apply path_down with c; [ exact I | exact P ].
Qed.

(** ** What [select] returns *)

Lemma select_path (sel : selector) (d n : node) :
  forall ancestors,
    In d (select sel ancestors n) ->
    exists up nm at_ ch,
      path up d n /\ d = Element nm at_ ch
      /\ matches sel (nm, at_) (up ++ ancestors) = true.
Proof.
  induction n as [ t | nm at_ ch IH ] using node_induction;
    intros ancestors H; [ contradiction | ].
  cbn [select] in H. apply in_app_iff in H as [H | H].
  - destruct (matches sel (nm, at_) ancestors) eqn:M; [ | contradiction ].
    destruct H as [<- | []].
    exists [], nm, at_, ch. split; [ constructor | auto ].
  - apply in_flat_map in H as (c & I & H).
    rewrite Forall_forall in IH.
    apply (IH c I) in H as (up & nm' & at' & ch' & P & -> & M).
    exists (up ++ [(nm, at_)]), nm', at', ch'.
    split; [ now apply path_down with c | ].
    split; [ reflexivity | ]. now rewrite <- app_assoc.
Qed.

Lemma path_select (sel : selector) (up : list tag) (d n : node) :
  path up d n ->
  forall nm at_ ch ancestors,
    d = Element nm at_ ch ->
    matches sel (nm, at_) (up ++ ancestors) = true ->
    In d (select sel ancestors n).
Proof.
  induction 1 as [ d | nm' at' ch' c up d I P IH ];
    intros nm at_ ch ancestors E M.
  - subst d. cbn [select app] in *. rewrite M. now left.
  - cbn [select]. apply in_app_iff. right. apply in_flat_map.
    exists c. split; [ exact I | ].
    apply (IH nm at_ ch); [ exact E | ]. now rewrite <- app_assoc in M.
Qed.

(** ** The chain of ancestors *)

Lemma ancestors_match_cons (c : compound) (chain : list compound)
      (a : tag) (ancestors : list tag) :
  ancestors_match (c :: chain) (a :: ancestors)
  = if matches_compound c a then ancestors_match chain ancestors
    else ancestors_match (c :: chain) ancestors.
Proof. reflexivity. Qed.

Lemma ancestors_match_embeds (chain : list compound) :
  forall ancestors,
    ancestors_match chain ancestors = true -> embeds chain ancestors.
Proof.
  induction chain as [ | c chain IH ]; intros ancestors H; [ constructor | ].
  induction ancestors as [ | a ancestors IHa ]; [ discriminate H | ].
  rewrite ancestors_match_cons in H.
  destruct (matches_compound c a) eqn:M.
  - apply embeds_take; auto.
  - apply embeds_skip; auto.
Qed.

Lemma embeds_weaken (chain : list compound) (a : tag) (ancestors : list tag) :
  embeds chain ancestors -> embeds chain (a :: ancestors).
Proof.
  destruct chain; intros H; [ constructor | now apply embeds_skip ].
Qed.

Lemma embeds_tail (c : compound) (chain : list compound)
      (ancestors : list tag) :
  embeds (c :: chain) ancestors -> embeds chain ancestors.
Proof.
  intros H. remember (c :: chain) as cs eqn:E.
  induction H as [ | c' chain' a ancestors H IH | c' chain' a ancestors M H _ ];
    [ discriminate E | | ]; injection E as -> ->; apply embeds_weaken; auto.
Qed.

Lemma embeds_ancestors_match (ancestors : list tag) :
  forall chain,
    embeds chain ancestors -> ancestors_match chain ancestors = true.
Proof.
  induction ancestors as [ | a ancestors IH ]; intros chain H.
  - now inversion H.
  - destruct chain as [ | c chain ]; [ reflexivity | ].
    rewrite ancestors_match_cons.
    inversion H as [ | ? ? ? ? S | ? ? ? ? M T ]; subst.
    + destruct (matches_compound c a); [ | now apply IH ].
      apply IH. now apply embeds_tail with c.
    + rewrite M. now apply IH.
Qed.

Lemma embeds_app (chain : list compound) (pre ancestors : list tag) :
  embeds chain ancestors -> embeds chain (pre ++ ancestors).
Proof.
  intros H. induction pre; [ exact H | now apply embeds_weaken ].
Qed.

Lemma embeds_one (c : compound) (chain : list compound)
      (ancestors : list tag) :
  embeds (c :: chain) ancestors ->
  exists u a rest,
    ancestors = u ++ a :: rest /\ matches_compound c a = true
    /\ embeds chain rest.
Proof.
  intros H. remember (c :: chain) as cs eqn:E.
  induction H as [ | c' chain' a ancestors H IH | c' chain' a ancestors M H _ ];
    [ discriminate E | | ]; injection E as -> ->.
  - destruct (IH eq_refl) as (u & b & rest & -> & M & T).
    exists (a :: u), b, rest. auto.
  - exists [], a, ancestors. auto.
Qed.


(** ** The selector of the roster rows *)

Lemma matches_by_name (n : string) (t : tag) :
  matches_compound (by_name n) t = true <-> fst t = lit n.
Proof.
  unfold matches_compound, by_name. cbn.
  rewrite !andb_true_r, str_eqb_eq. split; congruence.
Qed.

Lemma matches_by_name_class (n c : string) (t : tag) :
  matches_compound (by_name_class n c) t = true
  <-> fst t = lit n /\ has_class (lit c) t = true.
Proof.
  unfold matches_compound, by_name_class. cbn.
  rewrite !andb_true_r, andb_true_iff, str_eqb_eq.
  split; intros [A B]; split; congruence.
Qed.

Lemma matches_rows_sel (t : tag) (up : list tag) :
  matches rows_sel t up = true
  <-> fst t = lit "tr"
      /\ (has_class (lit "odd") t = true \/ has_class (lit "even") t = true)
      /\ embeds above_rows up.
Proof.
  unfold matches, rows_sel, matches_complex. cbn [existsb rev app].
  rewrite orb_false_r, orb_true_iff, !andb_true_iff, !matches_by_name_class.
  fold above_rows. split.
  - intros [[[N C] A] | [[N C] A]]; apply ancestors_match_embeds in A; auto.
  - intros (N & [C | C] & A); apply embeds_ancestors_match in A; auto.
Qed.

Lemma above_rows_found (up : list tag) :
  embeds above_rows up ->
  exists u1 a1 u2 a2 u3,
    up = (u1 ++ [a1]) ++ (u2 ++ [a2]) ++ u3
    /\ fst a1 = lit "tbody"
    /\ fst a2 = lit "table" /\ has_class (lit "items") a2 = true.
Proof.
  intros H. apply embeds_one in H as (u1 & a1 & r1 & -> & M1 & H).
  apply embeds_one in H as (u2 & a2 & u3 & -> & M2 & _).
  apply matches_by_name in M1. apply matches_by_name_class in M2 as [N C].
  exists u1, a1, u2, a2, u3. rewrite <- !app_assoc. cbn. auto.
Qed.

(** ** Queries of two steps *)

Lemma matches_compound_by_class (c : string) (t : tag) :
  matches_compound (by_class c) t = has_class (lit c) t.
Proof.
  unfold matches_compound, by_class. cbn. now rewrite !andb_true_r.
Qed.

Lemma matches_under (c n : string) (t : tag) (up : list tag) :
  matches [[by_class c; by_name n]] t up = true
  <-> fst t = lit n /\ embeds [by_class c] up.
Proof.
  unfold matches, matches_complex. cbn [existsb rev app].
  rewrite orb_false_r, andb_true_iff, matches_by_name. split.
  - intros [N A]. apply ancestors_match_embeds in A. auto.
  - intros [N A]. apply embeds_ancestors_match in A. auto.
Qed.

Lemma find1_path (sel : selector) (row d : node) :
  In d (find1 sel row)
  <-> exists up nm at_ ch rn ra rch c,
        row = Element rn ra rch /\ In c rch /\ path up d c
        /\ d = Element nm at_ ch
        /\ matches sel (nm, at_) (up ++ [(rn, ra)]) = true.
Proof.
  destruct row as [ t | rn ra rch ]; cbn [find1].
  - split; [ contradiction | ].
    intros (up & nm & at_ & ch & rn & ra & rch & c & E & _). discriminate E.
  - rewrite in_flat_map. split.
    + intros (c & I & H).
      apply select_path in H as (up & nm & at_ & ch & P & E & M).
      exists up, nm, at_, ch, rn, ra, rch, c. auto.
    + intros (up & nm & at_ & ch & rn' & ra' & rch' & c & E & I & P & D & M).
      injection E as <- <- <-.
      exists c. split; [ exact I | ]. now apply path_select with up nm at_ ch.
Qed.

(** [$(row).find('.c n')]: the elements named [n] inside the row that lie
    under the class [c], the row itself counting as a carrier of the
    class. *)
Lemma find_under_class (c n : string) (row d : node) :
  In d (find [[by_class c; by_name n]] (jq row))
  <-> element_named n d /\ under_class c row d.
Proof.
  unfold find, jq. cbn [flat_map]. rewrite app_nil_r, find1_path. split.
  - intros (up & nm & at_ & ch & rn & ra & rch & x & -> & I & P & -> & M).
    apply matches_under in M as [N A]. cbn [fst] in N.
    split; [ exact N | ].
    apply embeds_one in A as (u & a & rest & E & M & _).
    rewrite matches_compound_by_class in M.
    assert (path (up ++ [(rn, ra)]) (Element nm at_ ch) (Element rn ra rch))
      as P' by now apply path_down with x.
    destruct (path_split _ _ _ P' (u ++ [a]) rest) as (w & P1 & P2);
      [ now rewrite <- app_assoc | ].
    exists w. split; [ | split ].
    + apply path_last in P1 as (wch & y & -> & _). destruct a. exact M.
    + destruct rest as [ | r rest ].
      * left. now apply path_nil in P2.
      * right. apply path_descendant with (r :: rest); [ exact P2 | ].
        discriminate.
    + apply path_descendant with (u ++ [a]); [ exact P1 | ].
      now destruct u.
  - intros (N & w & C & W & D).
    destruct d as [ t | nm at_ ch ]; [ contradiction | ]. cbn in N.
    apply descendant_path in D as (up1 & wn & wa & wch & -> & P1).
    assert (exists rn ra rch up,
               row = Element rn ra rch
               /\ path (up ++ [(rn, ra)]) (Element nm at_ ch) row
               /\ embeds [by_class c] (up ++ [(rn, ra)]))
      as (rn & ra & rch & up & -> & P & A).
    { destruct W as [<- | W].
      - exists wn, wa, wch, up1. split; [ reflexivity | ].
        split; [ exact P1 | ].
        apply embeds_app, embeds_take; [ | constructor ].
        now rewrite matches_compound_by_class.
      - apply descendant_path in W as (up2 & rn & ra & rch & -> & P2).
        exists rn, ra, rch, ((up1 ++ [(wn, wa)]) ++ up2).
        split; [ reflexivity | ]. rewrite <- app_assoc.
        split; [ now apply path_app with (Element wn wa wch) | ].
        rewrite <- app_assoc. apply embeds_app. cbn [app].
        apply embeds_take; [ | constructor ].
        now rewrite matches_compound_by_class. }
    apply path_last in P as (rch' & x & E & I & P). injection E as <-.
    exists up, nm, at_, ch, rn, ra, rch, x.
    repeat split; auto. apply matches_under. auto.
Qed.

End SelectFacts.
Import SelectFacts.

Module SearchFacts.

(** Without [^], a match does not depend on the string around it. *)
Lemma rmatch_indep (A : Type) (w1 w2 : jsstring) (r : regex) :
  bolfree r = true ->
  forall s cs (k1 k2 : jsstring -> captures -> option A),
    (forall s' cs', k1 s' cs' = k2 s' cs') ->
    rmatch w1 r s cs k1 = rmatch w2 r s cs k2.
Proof.
  induction r as [ | | | c | | | l | r1 IH1 r2 IH2 | r1 IH1 r2 IH2
                 | r1 IH1 | i r1 IH1 ];
    cbn [bolfree rmatch]; intros B s cs k1 k2 K; try discriminate B;
    try (destruct s; [ | destruct (accepts_char _ _) ]; auto; fail).
  - apply K.
  - destruct s; auto.
  - apply andb_true_iff in B as [B1 B2].
    apply IH1; [ exact B1 | ]. intros s' cs'. now apply IH2.
  - apply andb_true_iff in B as [B1 B2].
    rewrite (IH1 B1 s cs k1 k2 K), (IH2 B2 s cs k1 k2 K). reflexivity.
  - generalize (length s). intros fuel. revert s cs.
    induction fuel as [ | fuel IHf ]; intros s cs; [ apply K | ].
    rewrite K.
    erewrite (IH1 B); [ reflexivity | ].
    intros s' cs'. cbv beta. destruct (Nat.ltb _ _); [ apply IHf | reflexivity ].
  - apply IH1; [ exact B | ]. intros s' cs'. apply K.
Qed.

Lemma match_here_indep (r : regex) (w1 w2 s : jsstring) :
  bolfree r = true -> match_here r w1 s = match_here r w2 s.
Proof.
  intros B. unfold match_here. now apply rmatch_indep.
Qed.

Lemma search_indep (r : regex) (w1 w2 s : jsstring) :
  bolfree r = true -> search r w1 s = search r w2 s.
Proof.
  intros B. induction s as [ | c s IH ]; cbn [search];
    rewrite (match_here_indep r w1 w2 _ B); [ reflexivity | ].
  now rewrite IH.
Qed.

(** A market value starts with a digit: no match starts elsewhere. *)
Lemma value_starts_with_digit (whole : jsstring) (c : char16) (s : jsstring) :
  is_digit c = false -> match_here value_re whole (c :: s) = None.
Proof.
  intros D. unfold match_here, value_re, amount_re. cbn [Seqs].
  rewrite rmatch_seq. cbn [rmatch accepts_char]. now rewrite D.
Qed.

Lemma search_skips (whole pre t : jsstring) :
  forallb (fun c => negb (is_digit c)) pre = true ->
  search value_re whole (pre ++ t) = search value_re whole t.
Proof.
  induction pre as [ | c pre IH ]; intros H; [ reflexivity | ].
  cbn [forallb] in H. apply andb_true_iff in H as [D H].
  apply negb_true_iff in D.
  cbn [app search]. rewrite (value_starts_with_digit _ _ _ D). now apply IH.
Qed.

Lemma str_match_skips (pre t : jsstring) :
  forallb (fun c => negb (is_digit c)) pre = true ->
  str_match value_re (pre ++ t) = str_match value_re t.
Proof.
  intros H. unfold str_match. rewrite (search_skips _ _ _ H).
  now apply search_indep.
Qed.

End SearchFacts.
Import SearchFacts.

Module GreedyFacts.

Lemma lang_Lit (l w : jsstring) : lang (Lit l) w -> w = l.
Proof.
  revert w. induction l as [ | c l IH ]; intros w H.
  - now inversion H.
  - destruct l as [ | c' l ].
    + inversion H as [ | | | r d A | | | | | | ]; subst.
      cbn in A. apply N.eqb_eq in A. now subst.
    + change (Lit (c :: c' :: l)) with (Seq (Chr c) (Lit (c' :: l))) in H.
      inversion H as [ | | | r d A | r1 r2 w1 w2 H1 H2 | | | | | ]; subst;
        [ discriminate A | ].
      apply IH in H2. subst w2.
      inversion H1 as [ | | | r d A | | | | | | ]; subst.
      cbn in A. apply N.eqb_eq in A. now subst.
Qed.

Lemma rmatch_digit (A : Type) (whole s : jsstring) (cs : captures)
      (k : jsstring -> captures -> option A) :
  rmatch whole Digit s cs k
  = match s with
    | c :: s' => if is_digit c then k s' cs else None
    | [] => None
    end.
Proof. reflexivity. Qed.

Lemma rmatch_group_eq (A : Type) (whole : jsstring) (i : nat) (r : regex)
      (s : jsstring) (cs : captures) (k : jsstring -> captures -> option A) :
  rmatch whole (Group i r) s cs k
  = rmatch whole r s cs
      (fun s' cs' => k s' ((i, firstn (length s - length s') s) :: cs')).
Proof. reflexivity. Qed.

(** When what follows cannot fail, [\d*] takes every digit there is. *)
Lemma star_digit_greedy (A : Type) (whole : jsstring)
      (k : jsstring -> captures -> option A) :
  (forall s cs, k s cs <> None) ->
  forall s cs,
    rmatch whole (Star Digit) s cs k = k (snd (span_digits s)) cs.
Proof.
  intros K s cs. cbn [rmatch].
  assert (length s <= length s) as L by lia. revert L.
  generalize (length s) at 2 3. intros fuel. revert s cs.
  induction fuel as [ | fuel IH ]; intros s cs L.
  - destruct s; [ reflexivity | cbn in L; lia ].
  - destruct s as [ | c s ]; [ reflexivity | ].
    cbn [span_digits accepts_char]. destruct (is_digit c); [ | reflexivity ].
    replace (Nat.ltb (length s) (length (c :: s))) with true
      by (symmetry; apply Nat.ltb_lt; cbn; lia).
    rewrite IH by (cbn in L; lia).
    destruct (span_digits s) as [ds r]. cbn [snd].
    destruct (k r cs) eqn:E; [ reflexivity | now apply K in E ].
Qed.

(** A match of the club pattern: the identifier is the whole run of digits
    after "verein/". *)
Lemma verein_re_digits (href : jsstring) (m : captures) :
  str_match verein_re href = Some m ->
  digits_after (lit "verein/") href (group 1 m).
Proof.
  unfold str_match. intros H.
  apply search_found in H as (pre & s0 & -> & H).
  unfold match_here, verein_re, Plus in H.
  rewrite rmatch_seq in H.
  apply rmatch_sound in H as (w0 & s1 & -> & L0 & H); [ | reflexivity ].
  apply lang_Lit in L0. subst w0.
  rewrite rmatch_group_eq, rmatch_seq, rmatch_digit in H.
  destruct s1 as [ | c s1 ]; [ discriminate H | ].
  destruct (is_digit c) eqn:C; [ | discriminate H ].
  rewrite star_digit_greedy in H by discriminate.
  destruct (span_digits_spec s1) as (E & D & N).
  destruct (span_digits s1) as [ds rest]. cbn [fst snd] in *. subst s1.
  change (c :: ds ++ rest) with ((c :: ds) ++ rest) in H.
  rewrite firstn_consumed in H. injection H as <-.
  unfold group. cbn [capture Nat.eqb].
  exists pre, rest. split; [ reflexivity | ].
  split; [ discriminate | ]. split; [ cbn; now rewrite C, D | exact N ].
Qed.

Lemma club_id_digits (v : option jsstring) :
  club_id v = NA
  \/ exists href, v = Some href /\ digits_after (lit "verein/") href (club_id v).
Proof.
  unfold club_id. destruct v as [ h | ]; [ | now left ].
  destruct (str_match verein_re h) as [ m | ] eqn:H; [ | now left ].
  right. exists h. split; [ reflexivity | now apply verein_re_digits ].
Qed.

End GreedyFacts.
Import GreedyFacts.

Module RowFacts.

(** ** The sub-element a rule reads *)

Lemma attr_first (a : jsstring) (x : selection) : attr a x = attr a (eq 0 x).
Proof. destruct x as [ | [ t | nm at_ ch ] x ]; reflexivity. Qed.

Lemma length_presence (sel : selector) (row row' : node) :
  same_presence sel row row' ->
  Nat.ltb 0 (length (find sel (jq row)))
  = Nat.ltb 0 (length (find sel (jq row'))).
Proof.
  unfold same_presence. intros [A B].
  destruct (find sel (jq row)) as [ | x l ];
    destruct (find sel (jq row')) as [ | y l' ]; try reflexivity.
  - discriminate (A eq_refl).
  - discriminate (B eq_refl).
Qed.

(** Each field is a function of the sub-element its rule reads. *)
Lemma fields_by_part (row row' : node) :
  (same_part hauptlink_a 0 row row' ->
   name_of row = name_of row' /\ id_of row = id_of row')
  /\ (same_part td 4 row row' -> position_of row = position_of row')
  /\ (same_part rn_nummer 0 row row' ->
      shirtNumber_of row = shirtNumber_of row')
  /\ (same_part portrait_img 0 row row' -> image_of row = image_of row')
  /\ (same_part zentriert 1 row row' ->
      dateOfBirth_of row = dateOfBirth_of row'
      /\ age_of row = age_of row')
  /\ (same_part zentriert 2 row row' ->
      nationality_of row = nationality_of row')
  /\ (same_part zentriert 3 row row' -> height_of row = height_of row')
  /\ (same_part zentriert 4 row row' -> foot_of row = foot_of row')
  /\ (same_presence verletzt_table row row' ->
      injury_of row = injury_of row')
  /\ (same_presence kapitaenicon_table row row' ->
      captain_of row = captain_of row')
  /\ (same_presence ausfall_1_table row row' ->
      suspension_of row = suspension_of row')
  /\ (same_part zentriert 5 row row' -> joined_of row = joined_of row')
  /\ (same_part zentriert 7 row row' ->
      contractUntil_of row = contractUntil_of row')
  /\ (same_part rechts 0 row row' -> marketValue_of row = marketValue_of row')
  /\ (same_part zentriert 6 row row' -> lastClub_of row = lastClub_of row')
  /\ (find wechsel_kader_wappen_a (jq row)
      = find wechsel_kader_wappen_a (jq row') ->
      additionalInformation_of row = additionalInformation_of row').
Proof.
  unfold same_part.
  repeat match goal with |- _ /\ _ => split end; intros S;
    try split;
    unfold name_of, id_of, position_of, shirtNumber_of, image_of,
      dateOfBirth_of, age_of, nationality_of, height_of, foot_of,
      injury_of, captain_of, suspension_of, joined_of, contractUntil_of,
      marketValue_of, lastClub_of, additionalInformation_of, cell_text;
    rewrite ?(attr_first _ (find hauptlink_a _)),
      ?(attr_first _ (find portrait_img _)),
      ?(length_presence _ _ _ S);
    try rewrite S; reflexivity.
Qed.

(** ** The optional records *)

Lemma empty_iff_no_member {A : Type} (l : list A) :
  l = [] <-> ~ exists x, In x l.
Proof.
  split.
  - intros -> (x & []).
  - intros N. destruct l as [ | x l ]; [ reflexivity | ].
    exfalso. apply N. exists x. now left.
Qed.

Lemma lastClub_none (row : node) :
  lastClub_of row = None <-> eq 6 (find zentriert (jq row)) = [].
Proof.
  unfold lastClub_of.
  destruct (eq 6 (find zentriert (jq row))); split;
    reflexivity || discriminate.
Qed.

Lemma additionalInformation_none (row : node) :
  additionalInformation_of row = None
  <-> find wechsel_kader_wappen_a (jq row) = [].
Proof.
  unfold additionalInformation_of.
  destruct (find wechsel_kader_wappen_a (jq row)); split;
    reflexivity || discriminate.
Qed.

(** ** The first link under a class *)

Lemma first_under_class (c n : string) (row : node) (href : jsstring) :
  attr (lit "href") (find [[by_class c; by_name n]] (jq row)) = Some href ->
  exists d,
    eq 0 (find [[by_class c; by_name n]] (jq row)) = [d]
    /\ (element_named n d /\ under_class c row d)
    /\ attr (lit "href") (jq d) = Some href.
Proof.
  intros H.
  pose proof (fun d => proj1 (find_under_class c n row d)) as F.
  destruct (find [[by_class c; by_name n]] (jq row)) as [ | d rest ];
    [ discriminate H | ].
  exists d. split; [ reflexivity | ]. split; [ apply F; now left | ].
  destruct d; [ discriminate H | exact H ].
Qed.

Lemma first_without_href (c n : string) (row : node) :
  attr (lit "href") (find [[by_class c; by_name n]] (jq row)) = None ->
  find [[by_class c; by_name n]] (jq row) = []
  \/ exists d,
       eq 0 (find [[by_class c; by_name n]] (jq row)) = [d]
       /\ (element_named n d /\ under_class c row d)
       /\ attr (lit "href") (jq d) = None.
Proof.
  intros H.
  pose proof (fun d => proj1 (find_under_class c n row d)) as F.
  destruct (find [[by_class c; by_name n]] (jq row)) as [ | d rest ];
    [ now left | right ].
  exists d. split; [ reflexivity | ]. split; [ apply F; now left | ].
  destruct d; [ reflexivity | exact H ].
Qed.

(** The rows that carry the class of the name cell themselves: their
    links count as primary links, the first in document order being the
    one that is read. *)
Lemma row_may_carry_the_class :
  playerData row_as_name_cell
  = Ok (player_of row_as_name_cell (lit "1") (lit "31/01/1999") (lit "25"))
  /\ name_of row_as_name_cell = lit "A"
  /\ playerData two_links
     = Ok (player_of two_links (lit "1") (lit "31/01/1999") (lit "25"))
  /\ name_of two_links = lit "A".
Proof. repeat split; reflexivity. Qed.

End RowFacts.
Import RowFacts.

(* ================================================================== *)
(** * The properties *)
(* ================================================================== *)

(** C1. Whatever the club identifier, [getClubSquad] never throws: it
    returns a sequence of players; and when the request, the parse or the
    extraction of a row fails, the failure is logged and the sequence is
    empty. *)
Theorem getClubSquad_fail_soft
        (cheerio_load : jsstring -> result (list node))
        (axios_get : jsstring -> result jsstring)
        (id_clube : jsstring) (log : console) :
  (exists players log',
      getClubSquad cheerio_load axios_get id_clube log = (Ok players, log'))
  /\ (forall e,
         pipeline_fails cheerio_load axios_get id_clube e ->
         getClubSquad cheerio_load axios_get id_clube log
         = (Ok [], log ++ [e])).
Proof.
  rewrite getClubSquad_run. split.
  - destruct (axios_get _) as [ data | e ]; [ | eauto ].
    destruct (cheerio_load data) as [ doc | e ]; [ | eauto ].
    destruct (each _ _); eauto.
  - intros e [ F | data F L | data doc F L X ]; rewrite F; try rewrite L;
      try rewrite X; reflexivity.
Qed.

(** The network is down: the call for club 614 returns the empty sequence
    and logs the error. *)
Lemma getClubSquad_fail_soft_witness :
  pipeline_fails (loads []) network_down (lit "614")
                 (HostError (lit "Network Error"))
  /\ getClubSquad (loads []) network_down (lit "614") []
     = (Ok [], [HostError (lit "Network Error")]).
Proof.
  assert (pipeline_fails (loads []) network_down (lit "614")
                         (HostError (lit "Network Error"))) as F
      by (apply fetch_fails; reflexivity).
  split; [ exact F | ].
  exact (proj2 (getClubSquad_fail_soft (loads []) network_down (lit "614") [])
               _ F).
Defined.

(** C2, as the code has it. Take a row whose first primary link carries
    an href. If its date cell does not read DD/MM/YYYY (AA), the row is not
    extracted: the date of birth has no default. If it does, the row is
    always extracted, and every other rule stands alone. Whichever of the
    sub-elements are missing, each field whose sub-element is missing
    takes its default; and each field is decided by the sub-element its
    rule reads and by nothing else in the row: any other extracted row
    that holds the same sub-element gets the same value for the field,
    whatever its other sub-elements are. *)
Theorem rules_independent_once_dated (row : node) (href : jsstring) :
  attr (lit "href") (find hauptlink_a (jq row)) = Some href ->
  (is_dob_text (cell_text zentriert 1 row) = false ->
   playerData row = Throw no_match)
  /\ (is_dob_text (cell_text zentriert 1 row) = true ->
      exists p,
        playerData row = Ok p
        /\ (cell_text hauptlink_a 0 row = [] -> name p = NA)
        /\ (nth_error (split (lit "spieler/") href) 1 = None -> id p = NA)
        /\ (eq 4 (find td (jq row)) = [] -> position p = NA)
        /\ (find rn_nummer (jq row) = [] -> shirtNumber p = NA)
        /\ (find portrait_img (jq row) = [] -> image p = NA)
        /\ (eq 2 (find zentriert (jq row)) = [] -> nationality p = [NA])
        /\ (eq 3 (find zentriert (jq row)) = [] -> height p = NA)
        /\ (eq 4 (find zentriert (jq row)) = [] -> foot p = NA)
        /\ (find verletzt_table (jq row) = [] -> injury p = false)
        /\ (find kapitaenicon_table (jq row) = [] -> captain p = false)
        /\ (find ausfall_1_table (jq row) = [] -> suspension p = false)
        /\ (eq 5 (find zentriert (jq row)) = [] -> joined p = NA)
        /\ (eq 7 (find zentriert (jq row)) = [] -> contractUntil p = NA)
        /\ (find rechts (jq row) = [] -> marketValue p = no_value)
        /\ (eq 6 (find zentriert (jq row)) = [] -> lastClub p = None)
        /\ (find wechsel_kader_wappen_a (jq row) = []
            -> additionalInformation p = None)
        /\ (forall row' p',
               playerData row' = Ok p' ->
               (same_part hauptlink_a 0 row row' ->
                name p = name p' /\ id p = id p')
               /\ (same_part td 4 row row' -> position p = position p')
               /\ (same_part rn_nummer 0 row row' ->
                   shirtNumber p = shirtNumber p')
               /\ (same_part portrait_img 0 row row' -> image p = image p')
               /\ (same_part zentriert 1 row row' ->
                   dateOfBirth p = dateOfBirth p' /\ age p = age p')
               /\ (same_part zentriert 2 row row' ->
                   nationality p = nationality p')
               /\ (same_part zentriert 3 row row' -> height p = height p')
               /\ (same_part zentriert 4 row row' -> foot p = foot p')
               /\ (same_presence verletzt_table row row' ->
                   injury p = injury p')
               /\ (same_presence kapitaenicon_table row row' ->
                   captain p = captain p')
               /\ (same_presence ausfall_1_table row row' ->
                   suspension p = suspension p')
               /\ (same_part zentriert 5 row row' -> joined p = joined p')
               /\ (same_part zentriert 7 row row' ->
                   contractUntil p = contractUntil p')
               /\ (same_part rechts 0 row row' ->
                   marketValue p = marketValue p')
               /\ (same_part zentriert 6 row row' ->
                   lastClub p = lastClub p')
               /\ (find wechsel_kader_wappen_a (jq row)
                   = find wechsel_kader_wappen_a (jq row') ->
                   additionalInformation p = additionalInformation p'))).
Proof.
  intros H. split; intros D.
  { unfold playerData, id_of, dateOfBirth_of.
    now rewrite H, dob_re_spec, D. }
  destruct (playerData row) as [ p | e ] eqn:P;
    [ | now rewrite (playerData_dated row href H D) in P ].
  exists p. split; [ reflexivity | ].
  apply playerData_inv in P as (i & d & a & I & B & A & ->).
  assert (i = opt_or_else (nth_error (split (lit "spieler/") href) 1) NA)
    as Ei by (unfold id_of in I; rewrite H in I; congruence).
  cbn [name id position shirtNumber image dateOfBirth age nationality height
       foot injury captain suspension joined contractUntil marketValue
       lastClub additionalInformation player_of].
  repeat match goal with |- _ /\ _ => split end.
  - unfold name_of. now intros ->.
  - rewrite Ei. now intros ->.
  - intros X. unfold position_of. now rewrite (cell_text_missing _ _ _ X).
  - intros X. unfold shirtNumber_of.
    now rewrite (cell_text_missing _ _ _ (eq_0_missing _ _ X)).
  - unfold image_of. now intros ->.
  - unfold nationality_of. now intros ->.
  - intros X. unfold height_of. now rewrite (cell_text_missing _ _ _ X).
  - intros X. unfold foot_of. now rewrite (cell_text_missing _ _ _ X).
  - unfold injury_of. now intros ->.
  - unfold captain_of. now intros ->.
  - unfold suspension_of. now intros ->.
  - intros X. unfold joined_of. now rewrite (cell_text_missing _ _ _ X).
  - intros X. unfold contractUntil_of.
    now rewrite (cell_text_missing _ _ _ X).
  - intros X. unfold marketValue_of.
    now rewrite (cell_text_missing _ _ _ (eq_0_missing _ _ X)).
  - unfold lastClub_of. now intros ->.
  - unfold additionalInformation_of. now intros ->.
  - intros row' p' P'.
    apply playerData_inv in P' as (i' & d' & a' & I' & B' & A' & ->).
    cbn [name id position shirtNumber image dateOfBirth age nationality
         height foot injury captain suspension joined contractUntil
         marketValue lastClub additionalInformation player_of].
    destruct (fields_by_part row row')
      as (F1 & F2 & F3 & F4 & F5 & F6 & F7 & F8 & F9 & F10 & F11 & F12
          & F13 & F14 & F15 & F16).
    repeat match goal with |- _ /\ _ => split end; auto.
    + intros S. destruct (F1 S) as [N J]. split; [ exact N | congruence ].
    + intros S. destruct (F5 S) as [N J]. split; congruence.
Qed.

(** A row with a link and a date and nothing else: every other field is
    at its default. And the sample row without its shirt number and its
    portrait: those two fields are at their defaults, and every field
    whose sub-element it shares with the sample row is as in the sample
    row. *)
Lemma rules_independent_once_dated_witness :
  (exists p,
      playerData bare_row = Ok p
      /\ name p = NA /\ id p = NA /\ position p = NA /\ shirtNumber p = NA
      /\ image p = NA /\ nationality p = [NA] /\ height p = NA
      /\ foot p = NA /\ joined p = NA /\ contractUntil p = NA
      /\ marketValue p = no_value /\ lastClub p = None
      /\ additionalInformation p = None
      /\ dateOfBirth p = lit "31/01/1999" /\ age p = lit "25")
  /\ (exists p,
         playerData unnumbered = Ok p
         /\ shirtNumber p = NA /\ image p = NA
         /\ name p = name (sample_player hugo_souza)
         /\ id p = id (sample_player hugo_souza)
         /\ dateOfBirth p = dateOfBirth (sample_player hugo_souza)
         /\ age p = age (sample_player hugo_souza)
         /\ nationality p = nationality (sample_player hugo_souza)
         /\ height p = height (sample_player hugo_souza)
         /\ foot p = foot (sample_player hugo_souza)
         /\ joined p = joined (sample_player hugo_souza)
         /\ contractUntil p = contractUntil (sample_player hugo_souza)
         /\ marketValue p = marketValue (sample_player hugo_souza)
         /\ lastClub p = lastClub (sample_player hugo_souza)
         /\ additionalInformation p
            = additionalInformation (sample_player hugo_souza)).
Proof.
  split.
  - destruct (proj2 (rules_independent_once_dated bare_row (lit "/profil/7")
                       eq_refl) eq_refl)
      as (p & P & F1 & F2 & F3 & F4 & F5 & F6 & F7 & F8 & _ & _ & _
          & F12 & F13 & F14 & F15 & F16 & _).
    exists p. split; [ exact P | ].
    split; [ apply F1; reflexivity | ].
    split; [ apply F2; reflexivity | ].
    split; [ apply F3; reflexivity | ].
    split; [ apply F4; reflexivity | ].
    split; [ apply F5; reflexivity | ].
    split; [ apply F6; reflexivity | ].
    split; [ apply F7; reflexivity | ].
    split; [ apply F8; reflexivity | ].
    split; [ apply F12; reflexivity | ].
    split; [ apply F13; reflexivity | ].
    split; [ apply F14; reflexivity | ].
    split; [ apply F15; reflexivity | ].
    split; [ apply F16; reflexivity | ].
    injection P as <-. split; reflexivity.
  - destruct (proj2 (rules_independent_once_dated unnumbered
                       (lit "/hugo-souza/profil/spieler/574901")
                       eq_refl) eq_refl)
      as (p & P & _ & _ & _ & F4 & F5 & _ & _ & _ & _ & _ & _
          & _ & _ & _ & _ & _ & S).
    destruct (S hugo_souza (sample_player hugo_souza) eq_refl)
      as (S1 & _ & _ & _ & S5 & S6 & S7 & S8 & _ & _ & _ & S12 & S13
          & S14 & S15 & S16).
    exists p. split; [ exact P | ].
    split; [ apply F4; reflexivity | ].
    split; [ apply F5; reflexivity | ].
    split; [ apply S1; reflexivity | ].
    split; [ apply S1; reflexivity | ].
    split; [ apply S5; reflexivity | ].
    split; [ apply S5; reflexivity | ].
    split; [ apply S6; reflexivity | ].
    split; [ apply S7; reflexivity | ].
    split; [ apply S8; reflexivity | ].
    split; [ apply S12; reflexivity | ].
    split; [ apply S13; reflexivity | ].
    split; [ apply S14; reflexivity | ].
    split; [ apply S15; reflexivity | ].
    apply S16; reflexivity.
Defined.

(** C2, as stated, fails: a row whose date cell does not read
    DD/MM/YYYY (AA) is not extracted at all. *)
Lemma undated_row_is_not_extracted :
  cell_text zentriert 1 undated = lit "-"
  /\ playerData undated = Throw no_match
  /\ ~ exists p, playerData undated = Ok p.
Proof.
  split; [ reflexivity | ].
  assert (playerData undated = Throw no_match) as X by reflexivity.
  split; [ exact X | ]. intros (p & P). rewrite X in P. discriminate P.
Qed.

(** C3. When the request and the parse succeed and the date cell of some
    roster row does not read DD/MM/YYYY (AA), the extraction of that row
    throws, and the call returns the empty sequence, whatever the other
    rows hold. *)
Theorem malformed_date_discards_squad
        (cheerio_load : jsstring -> result (list node))
        (axios_get : jsstring -> result jsstring)
        (id_clube data : jsstring) (doc : list node) (row : node)
        (log : console) :
  axios_get (squad_url id_clube) = Ok data ->
  cheerio_load data = Ok doc ->
  In row (query rows_sel doc) ->
  is_dob_text (cell_text zentriert 1 row) = false ->
  (exists e, playerData row = Throw e)
  /\ (exists e,
         getClubSquad cheerio_load axios_get id_clube log
         = (Ok [], log ++ [e])).
Proof.
  intros F L I D.
  destruct (playerData_undated row D) as (e & T).
  split; [ eauto | ].
  destruct (each_throws _ _ _ I T []) as (e' & X).
  exists e'. now rewrite getClubSquad_run, F, L, X.
Qed.

(** A page of three rows, the second without a date: nothing is
    returned. *)
Lemma malformed_date_discards_squad_witness :
  (exists e, playerData undated = Throw e)
  /\ (exists e,
         getClubSquad (loads (page [hugo_souza; undated; dual_national]))
                      (serves "<html>") (lit "614") []
         = (Ok [], [] ++ [e])).
Proof.
  apply (malformed_date_discards_squad
           (loads (page [hugo_souza; undated; dual_national]))
           (serves "<html>") (lit "614") (lit "<html>")
           (page [hugo_souza; undated; dual_national]) undated []).
  - reflexivity.
  - reflexivity.
  - right. left. reflexivity.
  - reflexivity.
Defined.

(** C4. For every extracted row, [marketValue] is decided by the trimmed
    text of the first right-aligned cell: "4,00 mi. €" gives 4000000 and
    "€", "500 mil €" gives 500000 and "€", "1.500.000,50 mil €" gives
    1500000500 and "€", and a text the pattern does not match gives 0 and
    "N/A". When the pattern matches, the unit is "mil", "mi" or "mi.", the
    currency is the third group, and the value is the parsed amount times
    1,000,000 for the unit "mi." and times 1,000 for the unit "mil"; the
    amount is parsed once its dots are dropped and its comma is a dot,
    which reads it as the integer its digits spell, divided by a hundred
    when a comma introduces two decimals. *)
Theorem market_value_normalization (row : node) (p : Player) :
  playerData row = Ok p ->
  (cell_text rechts 0 row = four_million ->
   marketValue p = {| value := of_Z 4000000; currency := [euro] |})
  /\ (cell_text rechts 0 row = half_million ->
      marketValue p = {| value := of_Z 500000; currency := [euro] |})
  /\ (cell_text rechts 0 row = one_and_a_half_billion ->
      marketValue p = {| value := of_Z 1500000500; currency := [euro] |})
  /\ (str_match value_re (cell_text rechts 0 row) = None ->
      marketValue p = {| value := of_Z 0; currency := NA |})
  /\ (forall m,
         str_match value_re (cell_text rechts 0 row) = Some m ->
         (group 2 m = lit "mil" \/ group 2 m = lit "mi"
          \/ group 2 m = lit "mi.")
         /\ currency (marketValue p) = group 3 m
         /\ (group 2 m = lit "mi." ->
             value (marketValue p)
             = mul (parseFloat (raw_value (group 1 m))) (of_Z 1000000))
         /\ (group 2 m = lit "mil" ->
             value (marketValue p)
             = mul (parseFloat (raw_value (group 1 m))) (of_Z 1000))
         /\ parseFloat (raw_value (group 1 m))
            = of_decimal false (amount_digits (group 1 m))
                (amount_scale (group 1 m)))
  /\ to_Z (of_Z 4000000) = Some 4000000%Z
  /\ to_Z (of_Z 500000) = Some 500000%Z
  /\ to_Z (of_Z 1500000500) = Some 1500000500%Z.
Proof.
  intros P. apply playerData_inv in P as (i & d & a & _ & _ & _ & ->).
  cbn [marketValue player_of]. unfold marketValue_of.
  split; [ intros ->; vm_compute; reflexivity | ].
  split; [ intros ->; vm_compute; reflexivity | ].
  split; [ intros ->; vm_compute; reflexivity | ].
  split; [ exact (market_value_no_match _) | ].
  split; [ | repeat split; vm_compute; reflexivity ].
  intros m H. rewrite (market_value_match _ _ H). cbn [value currency].
  pose proof (value_re_groups _ _ H) as (A & U & _).
  split; [ now apply unit_cases | ].
  split; [ reflexivity | ].
  unfold multiplier.
  split; [ now intros -> | ]. split; [ now intros -> | ].
  now apply parse_amount.
Qed.

(** The row of the documentation, and the same row with the other texts
    in its market-value cell. *)
Lemma market_value_normalization_witness :
  marketValue (sample_player hugo_souza)
  = {| value := of_Z 4000000; currency := [euro] |}
  /\ marketValue (sample_player (priced half_million))
     = {| value := of_Z 500000; currency := [euro] |}
  /\ marketValue (sample_player (priced one_and_a_half_billion))
     = {| value := of_Z 1500000500; currency := [euro] |}
  /\ marketValue (sample_player (priced (lit "-")))
     = {| value := of_Z 0; currency := NA |}.
Proof.
  split; [ | split; [ | split ] ].
  - apply (market_value_normalization hugo_souza _ eq_refl). reflexivity.
  - apply (market_value_normalization (priced half_million) _ eq_refl).
    reflexivity.
  - apply (market_value_normalization (priced one_and_a_half_billion) _
             eq_refl).
    reflexivity.
  - apply (market_value_normalization (priced (lit "-")) _ eq_refl).
    reflexivity.
Defined.

(** C5, as the code has it. For every extracted row, [lastClub] is null
    exactly when the row has no seventh centered cell; when that cell is
    there and holds neither an image nor a link, [lastClub] is a record
    whose three fields are "N/A"; [additionalInformation] is null exactly
    when the row has no transfer-badge link: no [a] element under the
    class [wechsel-kader-wappen], which the row itself may carry. *)
Theorem optional_records (row : node) (p : Player) :
  playerData row = Ok p ->
  (lastClub p = None <-> eq 6 (find zentriert (jq row)) = [])
  /\ (forall cell,
         eq 6 (find zentriert (jq row)) = [cell] ->
         find img [cell] = [] -> find a [cell] = [] ->
         lastClub p = Some blank_club)
  /\ (additionalInformation p = None
      <-> find wechsel_kader_wappen_a (jq row) = [])
  /\ (additionalInformation p = None
      <-> ~ exists d, badge_link row d).
Proof.
  intros P. apply playerData_inv in P as (i & d & a & _ & _ & _ & ->).
  cbn [lastClub additionalInformation player_of].
  split; [ apply lastClub_none | ].
  split; [ intros cell X Y Z; unfold lastClub_of; now rewrite X, Y, Z | ].
  split; [ apply additionalInformation_none | ].
  etransitivity; [ apply additionalInformation_none | ].
  etransitivity; [ apply empty_iff_no_member | ].
  unfold badge_link, wechsel_kader_wappen_a.
  split; intros N (x & X); apply N; exists x; now apply find_under_class.
Qed.

(** A row that ends before the "signed from" cell and has no badge; and
    a row that carries the class of the badge itself: its link counts. *)
Lemma optional_records_witness :
  playerData short_row = Ok (sample_player short_row)
  /\ lastClub (sample_player short_row) = None
  /\ additionalInformation (sample_player short_row) = None
  /\ (exists p,
         playerData row_as_badge = Ok p
         /\ additionalInformation p
            = Some {| content := lit "Emprestado do: CR Flamengo";
                      info_club_name := NA;
                      info_club_id := NA;
                      info_club_image_url := NA |}
         /\ exists d, badge_link row_as_badge d).
Proof.
  assert (playerData short_row = Ok (sample_player short_row)) as P
      by reflexivity.
  split; [ exact P | ].
  destruct (optional_records _ _ P) as (L & _ & A & _).
  split; [ apply L; reflexivity | ]. split; [ apply A; reflexivity | ].
  eexists. split; [ reflexivity | ]. split; [ reflexivity | ].
  exists titled_link. split; [ reflexivity | ].
  exists row_as_badge. split; [ reflexivity | ]. split; [ now left | ].
  apply descendant_deeper with (name_cell [titled_link]); [ now left | ].
  apply descendant_child. now left.
Defined.

(** C5, as stated, fails: the seventh centered cell of this row is there
    and empty, and [lastClub] is a record, not null. *)
Lemma empty_signed_from_cell_is_not_null :
  eq 6 (find zentriert (jq vacant_signed_from)) = [centered []]
  /\ exists p,
       playerData vacant_signed_from = Ok p
       /\ lastClub p = Some blank_club
       /\ lastClub p <> None.
Proof.
  split; [ reflexivity | ].
  eexists. split; [ reflexivity | ]. split; [ reflexivity | discriminate ].
Qed.

(** C6. For every extracted player, [nationality] is not empty: it is the
    titles of the images of the third centered cell, in document order
    and without those that resolve to "N/A", or the one-element sequence
    "N/A" when none is left. *)
Theorem nationality_never_empty (row : node) (p : Player) :
  playerData row = Ok p ->
  nationality p <> []
  /\ nationality p
     = match flag_titles (eq 2 (find zentriert (jq row))) with
       | [] => [NA]
       | titles => titles
       end
  /\ (forall t, In t (flag_titles (eq 2 (find zentriert (jq row)))) ->
                t <> NA).
Proof.
  intros P. apply playerData_inv in P as (i & d & a & _ & _ & _ & ->).
  cbn [nationality player_of]. rewrite nationality_of_spec.
  split; [ now destruct (flag_titles _) | ].
  split; [ reflexivity | ].
  intros t I. unfold flag_titles in I. apply filter_In in I as [_ I].
  intros ->. now rewrite (proj2 (str_eqb_eq NA NA) eq_refl) in I.
Qed.

(** Two flags give two nationalities, in order; no flag gives "N/A". *)
Lemma nationality_never_empty_witness :
  playerData dual_national = Ok (sample_player dual_national)
  /\ nationality (sample_player dual_national)
     = [lit "Brasil"; lit "Portugal"]
  /\ playerData stateless = Ok (sample_player stateless)
  /\ nationality (sample_player stateless) = [NA].
Proof.
  assert (playerData dual_national = Ok (sample_player dual_national)) as P
      by reflexivity.
  assert (playerData stateless = Ok (sample_player stateless)) as Q
      by reflexivity.
  destruct (nationality_never_empty _ _ P) as (_ & E & _).
  destruct (nationality_never_empty _ _ Q) as (_ & F & _).
  split; [ exact P | ]. split; [ rewrite E; reflexivity | ].
  split; [ exact Q | ]. rewrite F; reflexivity.
Defined.

(** C7, as the code has it. For every extracted player,
    [marketValue.value] is neither NaN nor negative: it is 0 when the
    market-value text does not match the pattern, and otherwise the parsed
    amount, itself neither NaN nor negative, times the multiplier of its
    unit; the parsed amount is the integer the digits of the amount spell,
    divided by a hundred when there is a comma; and the value is finite
    whenever the amount times the multiplier is below 1.797 * 10^308. *)
Theorem market_value_is_nonnegative (row : node) (p : Player) :
  playerData row = Ok p ->
  is_nonneg (value (marketValue p)) = true
  /\ (str_match value_re (cell_text rechts 0 row) = None ->
      value (marketValue p) = of_Z 0)
  /\ (forall m,
         str_match value_re (cell_text rechts 0 row) = Some m ->
         value (marketValue p)
         = mul (parseFloat (raw_value (group 1 m)))
               (of_Z (multiplier (group 2 m)))
         /\ is_nonneg (parseFloat (raw_value (group 1 m))) = true
         /\ parseFloat (raw_value (group 1 m))
            = of_decimal false (amount_digits (group 1 m))
                (amount_scale (group 1 m))
         /\ ((Z.of_N (amount_digits (group 1 m)) * multiplier (group 2 m)
              < finite_below (amount_scale (group 1 m)))%Z ->
             is_finite (value (marketValue p)) = true)).
Proof.
  intros P. apply playerData_inv in P as (i & d & a & _ & _ & _ & ->).
  cbn [marketValue player_of]. unfold marketValue_of.
  split; [ apply market_value_nonneg | ].
  split.
  - intros H. now rewrite (market_value_no_match _ H).
  - intros m H. split; [ now rewrite (market_value_match _ _ H) | ].
    split; [ | split ].
    + apply has_sign_nonneg. now apply parsed_amount_sign with (1 := H).
    + apply parse_amount. now apply value_re_groups in H as (A & _).
    + intros L. now apply market_value_finite with m.
Qed.

(** The row of the documentation: four million euros. And the same row
    priced at 1.79 * 10^308: its value is finite. *)
Lemma market_value_is_nonnegative_witness :
  playerData hugo_souza = Ok (sample_player hugo_souza)
  /\ is_nonneg (value (marketValue (sample_player hugo_souza))) = true
  /\ is_finite (value (marketValue (sample_player hugo_souza))) = true
  /\ to_Z (value (marketValue (sample_player hugo_souza))) = Some 4000000%Z
  /\ playerData (priced largest_priced)
     = Ok (sample_player (priced largest_priced))
  /\ is_finite (value (marketValue (sample_player (priced largest_priced))))
     = true.
Proof.
  assert (playerData hugo_souza = Ok (sample_player hugo_souza)) as P
      by reflexivity.
  destruct (market_value_is_nonnegative _ _ P) as (N & _ & M).
  split; [ exact P | ]. split; [ exact N | ].
  split; [ | split; [ vm_compute; reflexivity | ] ].
  - refine (proj2 (proj2 (proj2 (M [(0, four_million); (3, [euro]);
                                    (2, lit "mi."); (1, lit "4,00")] _))) _).
    + vm_compute; reflexivity.
    + vm_compute. reflexivity.
  - assert (playerData (priced largest_priced)
            = Ok (sample_player (priced largest_priced))) as P'
        by reflexivity.
    split; [ exact P' | ].
    destruct (market_value_is_nonnegative _ _ P') as (_ & _ & M').
    destruct (str_match value_re (cell_text rechts 0 (priced largest_priced)))
      as [ m | ] eqn:E; [ | vm_compute in E; discriminate E ].
    refine (proj2 (proj2 (proj2 (M' m eq_refl))) _).
    vm_compute in E. injection E as <-. vm_compute. reflexivity.
Defined.

(** C7, as stated, fails: priced at 1.8 * 10^308, the row is extracted,
    and its value is not finite. *)
Lemma market_value_overflows :
  playerData (priced least_overpriced)
  = Ok (sample_player (priced least_overpriced))
  /\ value (marketValue (sample_player (priced least_overpriced)))
     = S754_infinity false
  /\ is_finite (value (marketValue (sample_player (priced least_overpriced))))
     = false
  /\ playerData overpriced = Ok (sample_player overpriced)
  /\ value (marketValue (sample_player overpriced)) = S754_infinity false.
Proof.
  repeat split; vm_compute; reflexivity.
Qed.

(** C8. For every extracted row, each of [injury], [captain] and
    [suspension] is true exactly when an element inside the row carries
    the class of its marker icon; and the eight ways of putting the three
    icons in a row give the eight triples. *)
Theorem marker_flags :
  (forall row p,
      playerData row = Ok p ->
      (injury p = true <-> marked "verletzt-table" row)
      /\ (captain p = true <-> marked "kapitaenicon-table" row)
      /\ (suspension p = true <-> marked "ausfall-1-table" row))
  /\ (forall injured captain_ suspended,
         exists p,
           playerData (marked_row injured captain_ suspended) = Ok p
           /\ injury p = injured /\ captain p = captain_
           /\ suspension p = suspended).
Proof.
  split.
  - intros row p P.
    apply playerData_inv in P as (i & d & a & _ & _ & _ & ->).
    cbn [injury captain suspension player_of].
    unfold injury_of, captain_of, suspension_of.
    rewrite <- !find_by_class.
    unfold verletzt_table, kapitaenicon_table, ausfall_1_table.
    repeat split; intros H;
      match goal with
      | |- context [Nat.ltb 0 ?n] => destruct (Nat.ltb 0 n)
      | H : context [Nat.ltb 0 ?n] |- _ => destruct (Nat.ltb 0 n)
      end; auto; discriminate.
  - intros injured captain_ suspended.
    exists (sample_player (marked_row injured captain_ suspended)).
    destruct injured, captain_, suspended; repeat split; reflexivity.
Qed.

(** An injured and suspended player who is not the captain. *)
Lemma marker_flags_witness :
  playerData (marked_row true false true)
  = Ok (sample_player (marked_row true false true))
  /\ marked "verletzt-table" (marked_row true false true)
  /\ ~ marked "kapitaenicon-table" (marked_row true false true)
  /\ marked "ausfall-1-table" (marked_row true false true).
Proof.
  assert (playerData (marked_row true false true)
          = Ok (sample_player (marked_row true false true))) as P
      by reflexivity.
  destruct (proj1 marker_flags _ _ P) as (I & C & S).
  split; [ exact P | ].
  split; [ apply I; reflexivity | ].
  split; [ | apply S; reflexivity ].
  intros M. apply C in M. discriminate M.
Defined.

(** C9. The players [getClubSquad] returns depend on nothing but what the
    upstream serves for the club's page: two calls that are served the same
    response return the same sequence, whatever has been logged before and
    whatever the upstream holds for other addresses. *)
Theorem getClubSquad_deterministic
        (cheerio_load : jsstring -> result (list node))
        (first second : jsstring -> result jsstring)
        (id_clube : jsstring) (log1 log2 : console) :
  first (squad_url id_clube) = second (squad_url id_clube) ->
  fst (getClubSquad cheerio_load first id_clube log1)
  = fst (getClubSquad cheerio_load second id_clube log2).
Proof.
  intros H. rewrite !getClubSquad_run, H.
  destruct (second _) as [ data | e ]; [ | reflexivity ].
  destruct (cheerio_load data) as [ doc | e ]; [ | reflexivity ].
  destruct (each _ _); reflexivity.
Qed.

(** Two upstreams that agree on the page of club 614, and two different
    logs. *)
Lemma getClubSquad_deterministic_witness :
  serves "<html>" (squad_url (lit "614"))
  = serves_only_614 "<html>" (squad_url (lit "614"))
  /\ fst (getClubSquad (loads (page [hugo_souza; dual_national]))
                       (serves "<html>") (lit "614") [])
     = fst (getClubSquad (loads (page [hugo_souza; dual_national]))
                         (serves_only_614 "<html>") (lit "614")
                         [HostError (lit "Network Error")])
  /\ fst (getClubSquad (loads (page [hugo_souza; dual_national]))
                       (serves "<html>") (lit "614") [])
     = Ok [sample_player hugo_souza; sample_player dual_national].
Proof.
  assert (serves "<html>" (squad_url (lit "614"))
          = serves_only_614 "<html>" (squad_url (lit "614"))) as H
      by reflexivity.
  split; [ exact H | ].
  split; [ | reflexivity ].
  exact (getClubSquad_deterministic
           (loads (page [hugo_souza; dual_national]))
           (serves "<html>") (serves_only_614 "<html>") (lit "614")
           [] [HostError (lit "Network Error")] H).
Defined.

(** C10. For every extracted row whose market-value text the pattern
    matches with the unit "mi", without the dot, the comparison with "mi."
    fails and the parsed amount is multiplied by 1,000, not by 1,000,000:
    "4,00 mi €" is matched so, and gives 4000. *)
Theorem unit_without_dot_is_thousands
        (row : node) (p : Player) (m : captures) :
  playerData row = Ok p ->
  str_match value_re (cell_text rechts 0 row) = Some m ->
  group 2 m = lit "mi" ->
  str_eqb (group 2 m) (lit "mi.") = false
  /\ marketValue p
     = {| value := mul (parseFloat (raw_value (group 1 m))) (of_Z 1000);
          currency := group 3 m |}
  /\ parseFloat (raw_value (group 1 m))
     = of_decimal false (amount_digits (group 1 m))
         (amount_scale (group 1 m))
  /\ (cell_text rechts 0 row = four_thousand ->
      marketValue p = {| value := of_Z 4000; currency := [euro] |})
  /\ (exists m4, str_match value_re four_thousand = Some m4
                 /\ group 2 m4 = lit "mi")
  /\ to_Z (of_Z 4000) = Some 4000%Z.
Proof.
  intros P H U. apply playerData_inv in P as (i & d & a & _ & _ & _ & ->).
  cbn [marketValue player_of]. unfold marketValue_of.
  split; [ now rewrite U | ].
  split; [ rewrite (market_value_match _ _ H); unfold multiplier;
           now rewrite U | ].
  split; [ apply parse_amount; now apply value_re_groups in H as (A & _) | ].
  split; [ intros ->; vm_compute; reflexivity | ].
  split; [ eexists; split | ]; vm_compute; reflexivity.
Qed.

(** The sample row priced at "4,00 mi €": 4000 euros. *)
Lemma unit_without_dot_is_thousands_witness :
  playerData (priced four_thousand)
  = Ok (sample_player (priced four_thousand))
  /\ marketValue (sample_player (priced four_thousand))
     = {| value := of_Z 4000; currency := [euro] |}
  /\ marketValue (sample_player (priced four_thousand))
     = {| value := mul (parseFloat (lit "4.00")) (of_Z 1000);
          currency := [euro] |}.
Proof.
  assert (playerData (priced four_thousand)
          = Ok (sample_player (priced four_thousand))) as P by reflexivity.
  split; [ exact P | ].
  destruct (unit_without_dot_is_thousands (priced four_thousand) _
              [(0, four_thousand); (3, [euro]); (2, lit "mi");
               (1, lit "4,00")] P eq_refl eq_refl)
    as (_ & V & _ & X & _).
  split; [ apply X; reflexivity | exact V ].
Defined.

(* ================================================================== *)
(** * Further properties *)
(* ================================================================== *)

(** X1. A call that returns gives all or nothing: either a step of the
    pipeline failed, the result is empty and the error is the one entry
    added to the log; or the page was fetched and parsed, the result holds
    exactly one player per roster row, in document order, and nothing is
    logged. *)
Theorem squad_is_all_or_nothing
        (cheerio_load : jsstring -> result (list node))
        (axios_get : jsstring -> result jsstring)
        (id_clube : jsstring) (log log' : console) (players : list Player) :
  getClubSquad cheerio_load axios_get id_clube log = (Ok players, log') ->
  (exists e,
      pipeline_fails cheerio_load axios_get id_clube e
      /\ players = [] /\ log' = log ++ [e])
  \/ (exists data doc,
         axios_get (squad_url id_clube) = Ok data
         /\ cheerio_load data = Ok doc
         /\ Forall2 (fun row p => playerData row = Ok p)
                    (query rows_sel doc) players
         /\ log' = log).
Proof.
  rewrite getClubSquad_run.
  destruct (axios_get (squad_url id_clube)) as [ data | e ] eqn:F.
  - destruct (cheerio_load data) as [ doc | e ] eqn:L.
    + destruct (each (query rows_sel doc) []) as [ ps | e ] eqn:X.
      * intros [= <- <-]. right. exists data, doc.
        apply each_ok in X as (extracted & -> & A). auto.
      * intros [= <- <-]. left. exists e.
        split; [ now apply extraction_fails with data doc | auto ].
    + intros [= <- <-]. left. exists e.
      split; [ now apply load_fails with data | auto ].
  - intros [= <- <-]. left. exists e. split; [ now apply fetch_fails | auto ].
Qed.

(** A page of two rows: two players, in order, and an untouched log. *)
Lemma squad_is_all_or_nothing_witness :
  getClubSquad (loads (page [hugo_souza; dual_national])) (serves "<html>")
               (lit "614") []
  = (Ok [sample_player hugo_souza; sample_player dual_national], [])
  /\ Forall2 (fun row p => playerData row = Ok p)
             (query rows_sel (page [hugo_souza; dual_national]))
             [sample_player hugo_souza; sample_player dual_national].
Proof.
  assert (getClubSquad (loads (page [hugo_souza; dual_national]))
                       (serves "<html>") (lit "614") []
          = (Ok [sample_player hugo_souza; sample_player dual_national], []))
    as H by reflexivity.
  split; [ exact H | ].
  destruct (squad_is_all_or_nothing _ _ _ _ _ _ H)
    as [ (e & _ & X & _) | (data & doc & _ & L & A & _) ].
  - discriminate X.
  - injection L as <-. exact A.
Defined.

(** X2. When the page is fetched and parsed, the rows before a row are all
    extracted and that row throws, the call returns the empty sequence and
    logs the error of that row, whatever the rows after it hold; and the
    error is one of the two TypeErrors of the object literal. *)
Theorem first_failing_row_is_logged
        (cheerio_load : jsstring -> result (list node))
        (axios_get : jsstring -> result jsstring)
        (id_clube data : jsstring) (doc : list node)
        (good : selection) (bad : node) (rest : selection)
        (e : error) (log : console) :
  axios_get (squad_url id_clube) = Ok data ->
  cheerio_load data = Ok doc ->
  query rows_sel doc = good ++ bad :: rest ->
  forallb extracts good = true ->
  playerData bad = Throw e ->
  getClubSquad cheerio_load axios_get id_clube log = (Ok [], log ++ [e])
  /\ (e = no_split \/ e = no_match).
Proof.
  intros F L Q G B. split; [ | now apply playerData_errors with bad ].
  now rewrite getClubSquad_run, F, L, Q, (each_first_failure _ _ rest _ G B).
Qed.

(** The second row has no date, the third no link: the error logged is the
    one of the second. *)
Lemma first_failing_row_is_logged_witness :
  getClubSquad (loads (page [hugo_souza; undated; unlinked]))
               (serves "<html>") (lit "614") []
  = (Ok [], [] ++ [no_match])
  /\ (no_match = no_split \/ no_match = no_match).
Proof.
  apply (first_failing_row_is_logged
           (loads (page [hugo_souza; undated; unlinked])) (serves "<html>")
           (lit "614") (lit "<html>")
           (page [hugo_souza; undated; unlinked])
           [hugo_souza] undated [unlinked] no_match []);
    reflexivity.
Defined.

(** X13. The players route never answers 500: whatever the upstream does,
    it answers 200 with the sequence [getClubSquad] returned, which is
    empty when a step of the pipeline failed, and its own handler logs
    nothing. *)
Theorem club_players_always_200
        (cheerio_load : jsstring -> result (list node))
        (axios_get : jsstring -> result jsstring)
        (clubId : jsstring) (log : console) :
  exists players log',
    getClubSquad cheerio_load axios_get clubId log = (Ok players, log')
    /\ club_players cheerio_load axios_get clubId log
       = (Ok {| status := 200; sent := Players players |}, log')
    /\ (forall e,
           pipeline_fails cheerio_load axios_get clubId e ->
           players = [] /\ log' = log ++ [e]).
Proof.
  unfold club_players, try_catch, bind, ret.
  rewrite getClubSquad_run.
  destruct (axios_get (squad_url clubId)) as [ data | e ] eqn:F.
  - destruct (cheerio_load data) as [ doc | e ] eqn:L.
    + destruct (each (query rows_sel doc) []) as [ ps | e ] eqn:X.
      * exists ps, log. repeat split; auto;
          destruct H as [ F' | d F' L' | d c F' L' X' ]; congruence.
      * exists [], (log ++ [e]). repeat split; auto;
          destruct H as [ F' | d F' L' | d c F' L' X' ]; congruence.
    + exists [], (log ++ [e]). repeat split; auto;
        destruct H as [ F' | d F' L' | d c F' L' X' ]; congruence.
  - exists [], (log ++ [e]). repeat split; auto;
      destruct H as [ F' | d F' L' | d c F' L' X' ]; congruence.
Qed.

(** X6. For every extracted player, the date cell reads back from the two
    fields taken from it: its trimmed text is the date of birth, a space,
    and the age between parentheses; the date has ten characters and the
    age is two digits. *)
Theorem birth_cell_reads_back (row : node) (p : Player) :
  playerData row = Ok p ->
  cell_text zentriert 1 row
  = dateOfBirth p ++ lit " (" ++ age p ++ lit ")"
  /\ length (dateOfBirth p) = 10
  /\ length (age p) = 2
  /\ forallb is_digit (age p) = true.
Proof.
  intros P. apply playerData_inv in P as (i & d & a & _ & D & A & ->).
  cbn [dateOfBirth age player_of]. now apply birth_cell_fields.
Qed.

(** The row of the documentation. *)
Lemma birth_cell_reads_back_witness :
  playerData hugo_souza = Ok (sample_player hugo_souza)
  /\ cell_text zentriert 1 hugo_souza
     = lit "31/01/1999" ++ lit " (" ++ lit "25" ++ lit ")".
Proof.
  assert (playerData hugo_souza = Ok (sample_player hugo_souza)) as P
      by reflexivity.
  split; [ exact P | ].
  exact (proj1 (birth_cell_reads_back _ _ P)).
Defined.

(** X7. For every extracted player, the height is "N/A" or a digit, a
    comma and two digits that occur, in this order, in the text of the
    fourth centered cell. *)
Theorem height_is_shaped (row : node) (p : Player) :
  playerData row = Ok p ->
  height p = NA
  \/ (is_height (height p) = true
      /\ exists pre post,
           cell_text zentriert 3 row = pre ++ height p ++ post).
Proof.
  intros P. apply playerData_inv in P as (i & d & a & _ & _ & _ & ->).
  apply height_of_shape.
Qed.

(** "1,99m" gives "1,99". *)
Lemma height_is_shaped_witness :
  playerData hugo_souza = Ok (sample_player hugo_souza)
  /\ height (sample_player hugo_souza) = lit "1,99"
  /\ (height (sample_player hugo_souza) = NA
      \/ (is_height (height (sample_player hugo_souza)) = true
          /\ exists pre post,
               cell_text zentriert 3 hugo_souza
               = pre ++ height (sample_player hugo_souza) ++ post)).
Proof.
  assert (playerData hugo_souza = Ok (sample_player hugo_souza)) as P
      by reflexivity.
  split; [ exact P | ]. split; [ reflexivity | ].
  exact (height_is_shaped _ _ P).
Defined.

(** X10. For every extracted player, the currency is one of the three
    symbols of the pattern or "N/A"; it is "N/A" exactly when the text of
    the first right-aligned cell does not match the pattern, and the value
    is then 0. *)
Theorem currency_is_a_symbol_or_na (row : node) (p : Player) :
  playerData row = Ok p ->
  (currency (marketValue p) = [euro]
   \/ currency (marketValue p) = [ch "$"]
   \/ currency (marketValue p) = [pound]
   \/ currency (marketValue p) = NA)
  /\ (currency (marketValue p) = NA
      <-> str_match value_re (cell_text rechts 0 row) = None)
  /\ (currency (marketValue p) = NA -> value (marketValue p) = of_Z 0).
Proof.
  intros P. apply playerData_inv in P as (i & d & a & _ & _ & _ & ->).
  cbn [marketValue player_of]. unfold marketValue_of.
  destruct (market_value_currency (cell_text rechts 0 row)) as [S E].
  split; [ exact S | ]. split; [ exact E | ].
  intros N. apply E in N. now rewrite (market_value_no_match _ N).
Qed.

(** A row without a market value: "N/A" and 0. *)
Lemma currency_is_a_symbol_or_na_witness :
  exists p,
    playerData bare_row = Ok p
    /\ currency (marketValue p) = NA /\ value (marketValue p) = of_Z 0.
Proof.
  eexists. split; [ reflexivity | ].
  destruct (currency_is_a_symbol_or_na bare_row _ eq_refl) as (_ & E & Z).
  assert (currency (marketValue (player_of bare_row NA (lit "31/01/1999")
                                           (lit "25"))) = NA) as N
      by (apply E; reflexivity).
  split; [ exact N | exact (Z N) ].
Defined.

(** X8. For every extracted player, the text fields that come from
    [text().trim()], the name, the position, the shirt number, the foot and
    the two dates, and the names and the content of the two optional
    records, neither start nor end with white space. *)
Theorem text_fields_are_trimmed (row : node) (p : Player) :
  playerData row = Ok p ->
  trimmed (name p) /\ trimmed (position p) /\ trimmed (shirtNumber p)
  /\ trimmed (foot p) /\ trimmed (joined p) /\ trimmed (contractUntil p)
  /\ (forall c, lastClub p = Some c -> trimmed (signed_from_club_name c))
  /\ (forall i, additionalInformation p = Some i ->
                trimmed (content i) /\ trimmed (info_club_name i)).
Proof.
  intros P. apply playerData_inv in P as (i & d & a & _ & _ & _ & ->).
  cbn [name position shirtNumber foot joined contractUntil lastClub
       additionalInformation player_of].
  unfold name_of, position_of, shirtNumber_of, foot_of, joined_of,
    contractUntil_of, cell_text, lastClub_of, additionalInformation_of.
  repeat (split; [ apply trimmed_or_NA | ]).
  split.
  - intros c. destruct (Nat.ltb _ _); [ | discriminate ].
    intros [= <-]. apply trimmed_opt_or_NA.
  - intros x. destruct (Nat.ltb _ _); [ | discriminate ].
    intros [= <-]. split; apply trimmed_opt_or_NA.
Qed.

(** The link of the documentation's row reads "  Hugo Souza  ". *)
Lemma text_fields_are_trimmed_witness :
  playerData hugo_souza = Ok (sample_player hugo_souza)
  /\ text (eq 0 (find hauptlink_a (jq hugo_souza))) = lit "  Hugo Souza  "
  /\ name (sample_player hugo_souza) = lit "Hugo Souza"
  /\ trimmed (name (sample_player hugo_souza)).
Proof.
  assert (playerData hugo_souza = Ok (sample_player hugo_souza)) as P
      by reflexivity.
  split; [ exact P | ]. split; [ reflexivity | ]. split; [ reflexivity | ].
  exact (proj1 (text_fields_are_trimmed _ _ P)).
Defined.

(** X5. For every extracted player, the identifier is what lies in the
    href of the first primary link between the first "spieler/" and the
    next one, or the end; it is "N/A" when the href holds no "spieler/" or
    when nothing lies there. The first primary link is the first, in
    document order, of the [a] elements of the row under the class
    [hauptlink], which the row itself may carry. *)
Theorem id_follows_the_marker (row : node) (p : Player) :
  playerData row = Ok p ->
  exists href,
    attr (lit "href") (find hauptlink_a (jq row)) = Some href
    /\ id p = opt_or_else (after_first (lit "spieler/") href) NA
    /\ (index_of (lit "spieler/") href = None -> id p = NA)
    /\ exists d,
         eq 0 (find hauptlink_a (jq row)) = [d]
         /\ primary_link row d
         /\ attr (lit "href") (jq d) = Some href.
Proof.
  intros P. apply playerData_inv in P as (i & d & a & I & _ & _ & ->).
  cbn [id player_of]. unfold id_of in I.
  destruct (attr (lit "href") (find hauptlink_a (jq row))) as [ href | ] eqn:H;
    [ | discriminate I ].
  rewrite split_second in I by discriminate.
  injection I as <-. exists href. split; [ reflexivity | ].
  split; [ reflexivity | ].
  split; [ intros N; unfold after_first; now rewrite N | ].
  exact (first_under_class _ _ _ _ H).
Qed.

(** The href of the documentation's row, one without the marker, and a
    row that carries the class [hauptlink] itself, with a link in a plain
    cell before the one of its name cell: the first is read. *)
Lemma id_follows_the_marker_witness :
  playerData hugo_souza = Ok (sample_player hugo_souza)
  /\ after_first (lit "spieler/") (lit "/hugo-souza/profil/spieler/574901")
     = Some (lit "574901")
  /\ after_first (lit "spieler/") (lit "/profil/7") = None
  /\ (exists href,
         attr (lit "href") (find hauptlink_a (jq hugo_souza)) = Some href
         /\ id (sample_player hugo_souza)
            = opt_or_else (after_first (lit "spieler/") href) NA
         /\ (index_of (lit "spieler/") href = None ->
             id (sample_player hugo_souza) = NA)
         /\ exists d,
              eq 0 (find hauptlink_a (jq hugo_souza)) = [d]
              /\ primary_link hugo_souza d
              /\ attr (lit "href") (jq d) = Some href)
  /\ (exists p href,
         playerData two_links = Ok p
         /\ attr (lit "href") (find hauptlink_a (jq two_links)) = Some href
         /\ href = lit "/a/profil/spieler/1"
         /\ id p = lit "1").
Proof.
  assert (playerData hugo_souza = Ok (sample_player hugo_souza)) as P
      by reflexivity.
  split; [ exact P | ]. split; [ reflexivity | ]. split; [ reflexivity | ].
  split; [ exact (id_follows_the_marker _ _ P) | ].
  assert (playerData two_links
          = Ok (player_of two_links (lit "1") (lit "31/01/1999") (lit "25")))
    as P' by reflexivity.
  destruct (id_follows_the_marker _ _ P') as (href & H & I & _).
  exists (player_of two_links (lit "1") (lit "31/01/1999") (lit "25")), href.
  split; [ exact P' | ]. split; [ exact H | ].
  split; [ | reflexivity ].
  cbv in H. injection H as <-. reflexivity.
Defined.

(** X3. The rows handed to the extractor are exactly the [tr] elements
    of class [odd] or [even] that lie, in the document, inside a [tbody]
    inside a [table] of class [items]: header rows and the rows of other
    tables are left out. *)
Theorem roster_rows_are_selected (doc : list node) (row : node) :
  In row (query rows_sel doc) <-> roster_row doc row.
Proof.
  unfold query, roster_row. rewrite in_flat_map. split.
  - intros (top & I & H).
    apply select_path in H as (up & nm & at_ & ch & P & -> & M).
    rewrite app_nil_r in M. apply matches_rows_sel in M as (N & C & A).
    apply above_rows_found in A
      as (u1 & a1 & u2 & a2 & u3 & -> & N1 & N2 & C2).
    destruct (path_split _ _ _ P _ _ eq_refl) as (b & Pb & P').
    destruct (path_split _ _ _ P' _ _ eq_refl) as (t & Pt & Ptop).
    destruct (path_last _ _ _ _ Pb) as (chb & cb & -> & _ & _).
    destruct (path_last _ _ _ _ Pt) as (cht & ct & -> & _ & _).
    exists top, (Element (fst a2) (snd a2) cht),
      (Element (fst a1) (snd a1) chb).
    split; [ exact I | ]. split.
    { destruct u3 as [ | x u3 ].
      - left. now apply path_nil in Ptop.
      - right. apply (path_descendant _ _ _ Ptop). discriminate. }
    split; [ apply (path_descendant _ _ _ Pt); now destruct u2 | ].
    split; [ apply (path_descendant _ _ _ Pb); now destruct u1 | ].
    cbn [element_named carries_class]. destruct a1, a2. cbn in *. auto 10.
  - intros (top & t & b & I & T & Db & Dr & Nt & Ct & Nb & Nr & Cr).
    exists top. split; [ exact I | ].
    apply descendant_path in Dr as (u1 & nb & ab & chb & -> & Pr).
    apply descendant_path in Db as (u2 & nt & at_ & cht & -> & Pb).
    assert (exists u3, path u3 (Element nt at_ cht) top) as (u3 & Pt).
    { destruct T as [<- | D]; [ exists []; constructor | ].
      apply descendant_path in D as (u & ? & ? & ? & _ & P). eauto. }
    destruct row as [ | nr ar chr ]; [ contradiction | ].
    apply (path_select _ _ _ _ (path_app _ _ _ _ _ Pr (path_app _ _ _ _ _ Pb Pt))
             nr ar chr); [ reflexivity | ].
    rewrite app_nil_r. apply matches_rows_sel.
    cbn [element_named carries_class] in *. subst.
    split; [ reflexivity | ]. split; [ exact Cr | ].
    rewrite <- !app_assoc. cbn [app]. unfold above_rows.
    apply embeds_app. apply embeds_take; [ now apply matches_by_name | ].
    apply embeds_app. apply embeds_take; [ | constructor ].
    now apply matches_by_name_class.
Qed.

(** A page with a header row and a second table: the two rows of the
    roster table's body, and no other. *)
Lemma roster_rows_are_selected_witness :
  query rows_sel two_tables = [hugo_souza; dual_national]
  /\ roster_row two_tables dual_national
  /\ ~ roster_row two_tables header_row
  /\ ~ roster_row two_tables stateless.
Proof.
  assert (query rows_sel two_tables = [hugo_souza; dual_national]) as Q
      by reflexivity.
  split; [ exact Q | ].
  split; [ apply roster_rows_are_selected; rewrite Q; right; now left | ].
  split; intros R; apply roster_rows_are_selected in R; rewrite Q in R;
    destruct R as [R | [R | []]]; discriminate R.
Defined.

(** X11. The market-value pattern is not anchored at the start: text
    without a digit in front of the cell's text changes nothing to the
    value and the currency. *)
Theorem market_value_skips_leading_text (pre cell : jsstring) :
  forallb (fun c => negb (is_digit c)) pre = true ->
  market_value (pre ++ cell) = market_value cell.
Proof.
  intros H. pose proof (str_match_skips pre cell H) as E.
  destruct (str_match value_re cell) as [ m | ] eqn:M.
  - now rewrite (market_value_match _ _ E), (market_value_match _ _ M).
  - now rewrite (market_value_no_match _ E), (market_value_no_match _ M).
Qed.

(** "Valor: 4,00 mi. €" is four million euros. *)
Lemma market_value_skips_leading_text_witness :
  market_value (lit "Valor: " ++ four_million)
  = {| value := of_Z 4000000; currency := [euro] |}.
Proof.
  rewrite (market_value_skips_leading_text (lit "Valor: ") four_million
             eq_refl).
  vm_compute. reflexivity.
Defined.

(** X9. For every extracted player no text field is empty: the name,
    the identifier, the position, the shirt number, the image, the date of
    birth, the age, each nationality, the height, the foot, the two dates,
    the currency and every field of the two optional records hold at least
    one character. *)
Theorem no_field_is_empty (row : node) (p : Player) :
  playerData row = Ok p ->
  name p <> [] /\ id p <> [] /\ position p <> [] /\ shirtNumber p <> []
  /\ image p <> [] /\ dateOfBirth p <> [] /\ age p <> []
  /\ Forall (fun t => t <> []) (nationality p)
  /\ height p <> [] /\ foot p <> [] /\ joined p <> []
  /\ contractUntil p <> [] /\ currency (marketValue p) <> []
  /\ (forall c, lastClub p = Some c ->
                signed_from_club_name c <> []
                /\ signed_from_club_id c <> []
                /\ signed_from_club_image_url c <> [])
  /\ (forall i, additionalInformation p = Some i ->
                content i <> [] /\ info_club_name i <> []
                /\ info_club_id i <> [] /\ info_club_image_url i <> []).
Proof.
  intros P. apply playerData_inv in P as (i & d & a & I & D & A & ->).
  destruct (birth_cell_fields row d a D A) as (_ & Ld & La & _).
  cbn [name id position shirtNumber image dateOfBirth age nationality
       height foot joined contractUntil marketValue lastClub
       additionalInformation player_of].
  assert (forall v, club_id v <> []) as CI.
  { intros v. destruct (club_id_numeric v) as [-> | [N _]];
      [ discriminate | exact N ]. }
  split; [ apply or_else_nonempty, NA_nonempty | ].
  split.
  { unfold id_of in I. destruct (attr _ _); [ | discriminate I ].
    injection I as <-. apply opt_or_else_nonempty, NA_nonempty. }
  split; [ apply or_else_nonempty, NA_nonempty | ].
  split; [ apply or_else_nonempty, NA_nonempty | ].
  split; [ apply opt_or_else_nonempty, NA_nonempty | ].
  split; [ now destruct d | ].
  split; [ now destruct a | ].
  split.
  { rewrite nationality_of_spec.
    assert (Forall (fun t => t <> [])
                   (flag_titles (eq 2 (find zentriert (jq row))))) as F.
    { unfold flag_titles. apply Forall_forall. intros t T.
      apply filter_In in T as [T _]. apply in_map_iff in T as (x & <- & _).
      apply opt_or_else_nonempty, NA_nonempty. }
    destruct (flag_titles _); [ | exact F ].
    constructor; [ apply NA_nonempty | constructor ]. }
  split.
  { destruct (height_of_shape row) as [-> | [H _]]; [ apply NA_nonempty | ].
    now destruct (height_of row). }
  split; [ apply or_else_nonempty, NA_nonempty | ].
  split; [ apply or_else_nonempty, NA_nonempty | ].
  split; [ apply or_else_nonempty, NA_nonempty | ].
  split.
  { unfold marketValue_of.
    destruct (market_value_currency (cell_text rechts 0 row))
      as [[-> | [-> | [-> | ->]]] _]; discriminate. }
  unfold lastClub_of, additionalInformation_of. split.
  - intros c. destruct (Nat.ltb _ _); [ | discriminate ].
    intros [= <-]. cbn.
    repeat split; auto; apply opt_or_else_nonempty, NA_nonempty.
  - intros x. destruct (Nat.ltb _ _); [ | discriminate ].
    intros [= <-]. cbn.
    repeat split; auto; apply opt_or_else_nonempty, NA_nonempty.
Qed.

(** The row with a link and a date and nothing else: no field is empty. *)
Lemma no_field_is_empty_witness :
  exists p,
    playerData bare_row = Ok p
    /\ name p = NA /\ name p <> [] /\ id p <> [] /\ height p <> [].
Proof.
  eexists. split; [ reflexivity | ].
  destruct (no_field_is_empty bare_row _ eq_refl)
    as (N & I & _ & _ & _ & _ & _ & _ & H & _).
  split; [ reflexivity | ]. auto.
Defined.

(** X14. Two different club identifiers never give the same address. *)
Theorem squad_url_is_injective (a b : jsstring) :
  a <> b -> squad_url a <> squad_url b.
Proof.
  intros N E. apply N. unfold squad_url in E.
  apply app_inv_head in E. now apply app_inv_tail in E.
Qed.

Lemma squad_url_is_injective_witness :
  squad_url (lit "614") <> squad_url (lit "6141").
Proof.
  apply squad_url_is_injective. discriminate.
Defined.

(** X12. For every extracted player, the club identifier of [lastClub] is
    "N/A" or the whole run of digits that follows "verein/" in the href of
    the first link of the seventh centered cell; the one of
    [additionalInformation] is "N/A" or such a run in the href of the first
    badge link: the first, in document order, of the [a] elements of the
    row under the class [wechsel-kader-wappen], which the row itself may
    carry. *)
Theorem club_ids_follow_verein (row : node) (p : Player) :
  playerData row = Ok p ->
  (forall c,
      lastClub p = Some c ->
      signed_from_club_id c = NA
      \/ exists href,
           attr (lit "href") (find a (eq 6 (find zentriert (jq row))))
           = Some href
           /\ digits_after (lit "verein/") href (signed_from_club_id c))
  /\ (forall i,
         additionalInformation p = Some i ->
         info_club_id i = NA
         \/ exists href,
              attr (lit "href") (find wechsel_kader_wappen_a (jq row))
              = Some href
              /\ digits_after (lit "verein/") href (info_club_id i)
              /\ exists d,
                   eq 0 (find wechsel_kader_wappen_a (jq row)) = [d]
                   /\ badge_link row d
                   /\ attr (lit "href") (jq d) = Some href).
Proof.
  intros P. apply playerData_inv in P as (i & d & x & _ & _ & _ & ->).
  cbn [lastClub additionalInformation player_of].
  unfold lastClub_of, additionalInformation_of. split.
  - intros c. destruct (Nat.ltb _ _); [ | discriminate ].
    intros [= <-]. cbn [signed_from_club_id]. apply club_id_digits.
  - intros y. destruct (Nat.ltb _ _); [ | discriminate ].
    intros [= <-]. cbn [info_club_id].
    destruct (club_id_digits
                (attr (lit "href") (find wechsel_kader_wappen_a (jq row))))
      as [ N | (href & H & D) ]; [ now left | right ].
    exists href. split; [ exact H | ]. split; [ exact D | ].
    exact (first_under_class _ _ _ _ H).
Qed.

(** The row of the documentation: "/cr-flamengo/startseite/verein/614/saison_id/2023"
    gives 614, and the badge link "/cr-flamengo/startseite/verein/614"
    gives 614. A row that carries the class of the badge itself: its
    first link is read, not the one of the badge inside it. *)
Lemma club_ids_follow_verein_witness :
  playerData hugo_souza = Ok (sample_player hugo_souza)
  /\ option_map signed_from_club_id (lastClub (sample_player hugo_souza))
     = Some (lit "614")
  /\ (lit "614" = NA
      \/ exists href,
           attr (lit "href") (find a (eq 6 (find zentriert (jq hugo_souza))))
           = Some href
           /\ digits_after (lit "verein/") href (lit "614"))
  /\ option_map info_club_id
       (additionalInformation (sample_player hugo_souza))
     = Some (lit "614")
  /\ (exists p,
         playerData two_badges = Ok p
         /\ option_map info_club_id (additionalInformation p)
            = Some (lit "1")).
Proof.
  assert (playerData hugo_souza = Ok (sample_player hugo_souza)) as P
      by reflexivity.
  split; [ exact P | ]. split; [ reflexivity | ].
  split; [ | split; [ reflexivity | eexists; split; reflexivity ] ].
  exact (proj1 (club_ids_follow_verein _ _ P)
               {| signed_from_club_name := lit "CR Flamengo";
                  signed_from_club_id := lit "614";
                  signed_from_club_image_url :=
                    lit "https://tmssl.akamaized.net//images/wappen/verysmall/614.png?lm=1551023331" |}
               eq_refl).
Defined.

(** X4. What becomes of a row is decided by two of its parts, in this
    order: without an href on its first primary link (the row has no
    primary link, or the first one has no href) the extraction throws the
    TypeError of [split], whatever the date cell holds; with one and a
    date cell that does not read DD/MM/YYYY (AA) it throws the TypeError of
    the failed match; otherwise the row is extracted. The primary links
    are the [a] elements of the row under the class [hauptlink], which the
    row itself may carry. *)
Theorem extraction_outcome (row : node) :
  match attr (lit "href") (find hauptlink_a (jq row)) with
  | None =>
      playerData row = Throw no_split
      /\ ((~ exists d, primary_link row d)
          \/ exists d,
               eq 0 (find hauptlink_a (jq row)) = [d]
               /\ primary_link row d
               /\ attr (lit "href") (jq d) = None)
  | Some href =>
      (exists d,
          eq 0 (find hauptlink_a (jq row)) = [d]
          /\ primary_link row d
          /\ attr (lit "href") (jq d) = Some href)
      /\ if is_dob_text (cell_text zentriert 1 row)
         then exists p, playerData row = Ok p
         else playerData row = Throw no_match
  end.
Proof.
  destruct (attr (lit "href") (find hauptlink_a (jq row))) as [ href | ] eqn:H.
  - split; [ exact (first_under_class _ _ _ _ H) | ].
    destruct (is_dob_text (cell_text zentriert 1 row)) eqn:D.
    + eexists. apply (playerData_dated row href H D).
    + unfold playerData, id_of, dateOfBirth_of.
      now rewrite H, dob_re_spec, D.
  - split; [ now apply playerData_unlinked | ].
    destruct (first_without_href _ _ _ H) as [ N | X ]; [ left | now right ].
    apply empty_iff_no_member in N. intros (d & D). apply N. exists d.
    now apply find_under_class.
Qed.
